(** * gardener-resource-manager: the retrying mutator and the finalizer reconciler

    A shallow embedding of [pkg/controller/utils/utils.go] and of the secret
    reconciler exercised by
    [pkg/controller/managedresources/secret_controller_test.go].

    Go code that talks to the API server is written in a state monad over a
    world: the state of the client (an interface in Go, a type class here) and
    the trace of the calls made so far.  Go's [error] is [option error], with
    [None] for [nil]. *)

From Stdlib Require Import ZArith QArith String List Bool Lia.
From stdpp Require Import base option gmap strings.
Import ListNotations.

Local Close Scope Q_scope.
Local Open Scope string_scope.
Local Open Scope Z_scope.

(** ** Errors *)

(** The error values the code distinguishes: the API status reasons tested by
    [apierrors.IsNotFound] and [apierrors.IsConflict], [wait.ErrWaitTimeout],
    the two values of [ctx.Err()], and any other error ([fmt.Errorf]). *)
Inductive error : Type :=
| NotFound
| Conflict
| AlreadyExists
| ErrWaitTimeout
| Canceled
| DeadlineExceeded
| Errorf (msg : string).

Definition IsNotFound (e : error) : bool :=
  match e with NotFound => true | _ => false end.

Definition IsConflict (e : error) : bool :=
  match e with Conflict => true | _ => false end.

(** [err != nil]. *)
Definition isErr (err : option error) : bool :=
  match err with Some _ => true | None => false end.

(** [client.IgnoreNotFound]: nil on a not-found error, the error otherwise. *)
Definition IgnoreNotFound (err : option error) : option error :=
  match err with
  | Some e => if IsNotFound e then None else Some e
  | None => None
  end.

(** ** Worlds and the monad of API calls *)

Abbreviation ObjectKey := (string * string)%type.

(** A duration is a number of nanoseconds ([time.Duration] is an int64). *)
Abbreviation Duration := Z.

Inductive Event : Type :=
| EvGet
| EvList
| EvCreate
| EvUpdate
| EvStatusUpdate
| EvPatch
| EvSleep (d : Duration).

Record World (S : Type) : Type := mkWorld { env : S; trace : list Event }.
Arguments mkWorld {S} _ _.
Arguments env {S} _.
Arguments trace {S} _.

Definition M (S A : Type) : Type := World S -> A * World S.

Definition ret {S A} (a : A) : M S A := fun w => (a, w).

Definition bind {S A B} (m : M S A) (f : A -> M S B) : M S B :=
  fun w => let (a, w') := m w in f a w'.

Declare Scope api_scope.
Delimit Scope api_scope with api.
Notation "'let*' p ':=' c1 'in' c2" := (bind c1 (fun p => c2))
  (at level 10, p pattern, c1 at level 100, c2 at level 200) : api_scope.
Local Open Scope api_scope.

Definition emit {S} (e : Event) (w : World S) : World S :=
  mkWorld (env w) (trace w ++ [e]).

(** Number of calls of one kind in a trace. *)
Definition isGet (e : Event) : bool := match e with EvGet => true | _ => false end.
Definition isUpdate (e : Event) : bool :=
  match e with EvUpdate | EvStatusUpdate => true | _ => false end.
Definition isPatch (e : Event) : bool := match e with EvPatch => true | _ => false end.
Definition isCreate (e : Event) : bool := match e with EvCreate => true | _ => false end.
Definition isSleep (e : Event) : bool := match e with EvSleep _ => true | _ => false end.
Definition isWrite (e : Event) : bool :=
  match e with EvCreate | EvUpdate | EvStatusUpdate | EvPatch => true | _ => false end.

Definition calls (p : Event -> bool) (t : list Event) : nat :=
  length (List.filter p t).

(** ** The interfaces the code is written against *)

(** [client.Object]: the accessors of the object meta the code uses, and
    [reflect.DeepEqual] on two objects of the type. *)
Class Object (Obj : Type) : Type := {
  GetNamespace : Obj -> string;
  GetName : Obj -> string;
  GetFinalizers : Obj -> list string;
  SetFinalizers : list string -> Obj -> Obj;
  DeepEqual : Obj -> Obj -> bool
}.

Definition ObjectKeyFromObject {Obj} `{Object Obj} (obj : Obj) : ObjectKey :=
  (GetNamespace obj, GetName obj).

(** [client.Client] for objects of one type.  Every call that takes the
    object writes into it, so every call returns the object as it leaves it.
    [Get] reads: it does not change the state of the client. *)
Class Client (S Obj : Type) : Type := {
  Get : ObjectKey -> Obj -> S -> Obj * option error;
  Create : Obj -> S -> (Obj * option error) * S;
  Update : Obj -> S -> (Obj * option error) * S;
  StatusUpdate : Obj -> S -> (Obj * option error) * S;
  (* Patch obj base: client.MergeFromWithOptions(base, MergeFromWithOptimisticLock{}) *)
  Patch : Obj -> Obj -> S -> (Obj * option error) * S
}.

(** The float64 operations of the backoff computations, on a type [F] that
    stands for float64: the value of a decimal literal, [x > 0.0], [x != 0]
    and [time.Duration(float64(d) * x)]. *)
Class Float64 (F : Type) : Type := {
  floatLit : Q -> F;
  gtZero : F -> bool;
  neZero : F -> bool;
  mulDuration : Duration -> F -> Duration
}.

(** What the code needs from the Go runtime: the context ([ctxErr] is
    [Some (ctx.Err())] once [ctx.Done()] is closed), [time.Sleep] and
    [wait.Jitter], which draws a random number. *)
Class Runtime (S F : Type) : Type := {
  ctxErr : S -> option error;
  Sleep : Duration -> S -> S;
  Jitter : Duration -> F -> S -> Duration * S
}.

(** [wait.Backoff]. *)
Record Backoff (F : Type) : Type := mkBackoff {
  BDuration : Duration;
  BFactor : F;
  BJitter : F;
  BSteps : Z
}.
Arguments mkBackoff {F} _ _ _ _.
Arguments BDuration {F} _.
Arguments BFactor {F} _.
Arguments BJitter {F} _.
Arguments BSteps {F} _.

(** Go's [int] is 64 bits wide; [i++] wraps around. *)
Definition maxInt : Z := 2 ^ 63 - 1.
Definition wrapInt (z : Z) : Z := (z + 2 ^ 63) mod 2 ^ 64 - 2 ^ 63.
Definition incr (i : Z) : Z := wrapInt (i + 1).

Section Calls.
Context {S Obj : Type} `{Client S Obj}.

Definition callGet (key : ObjectKey) (obj : Obj) : M S (Obj * option error) :=
  fun w => (Get key obj (env w), emit EvGet w).

Definition callCreate (obj : Obj) : M S (Obj * option error) :=
  fun w => (fst (Create obj (env w)), emit EvCreate (mkWorld (snd (Create obj (env w))) (trace w))).

Definition callUpdate (obj : Obj) : M S (Obj * option error) :=
  fun w => (fst (Update obj (env w)), emit EvUpdate (mkWorld (snd (Update obj (env w))) (trace w))).

Definition callStatusUpdate (obj : Obj) : M S (Obj * option error) :=
  fun w => (fst (StatusUpdate obj (env w)),
            emit EvStatusUpdate (mkWorld (snd (StatusUpdate obj (env w))) (trace w))).

Definition callPatch (obj base : Obj) : M S (Obj * option error) :=
  fun w => (fst (Patch obj base (env w)),
            emit EvPatch (mkWorld (snd (Patch obj base (env w))) (trace w))).
End Calls.

Section RuntimeCalls.
Context {S F : Type} `{Runtime S F}.

Definition ctxDone : M S (option error) := fun w => (ctxErr (env w), w).

Definition callSleep (d : Duration) : M S unit :=
  fun w => (tt, emit (EvSleep d) (mkWorld (Sleep d (env w)) (trace w))).

Definition callJitter (d : Duration) (maxFactor : F) : M S Duration :=
  fun w => (fst (Jitter d maxFactor (env w)),
            mkWorld (snd (Jitter d maxFactor (env w))) (trace w)).
End RuntimeCalls.

(** ** utils.go: EvalGenericPredicate *)

(** [predicate.Predicate], as far as the function uses it: the answer of
    [Generic] to the generic event that carries the object. *)
Record Predicate (Obj : Type) : Type := mkPredicate { Generic : Obj -> bool }.
Arguments mkPredicate {Obj} _.
Arguments Generic {Obj} _ _.

Fixpoint EvalGenericPredicate {Obj : Type} (obj : Obj) (predicates : list (Predicate Obj))
    : bool :=
  match predicates with
  | [] => true
  | p :: rest => if negb (Generic p obj) then false else EvalGenericPredicate obj rest
  end.

(** ** utils.go: exponentialBackoff and tryUpdate *)

Section Backoff.
Context {S F : Type} `{Float64 F} `{Runtime S F}.

(** The sleep between two rounds:
<<
    adjusted := duration
    if backoff.Jitter > 0.0 { adjusted = wait.Jitter(duration, backoff.Jitter) }
    time.Sleep(adjusted)
>> *)
Definition adjustedDuration (backoff : Backoff F) (duration : Duration) (s : S)
    : Duration * S :=
  if gtZero (BJitter backoff) then Jitter duration (BJitter backoff) s
  else (duration, s).

(** The state of the runtime after that sleep. *)
Definition afterSleep (backoff : Backoff F) (duration : Duration) (s : S) : S :=
  Sleep (fst (adjustedDuration backoff duration s))
    (snd (adjustedDuration backoff duration s)).

Definition sleepAdjusted (backoff : Backoff F) (duration : Duration) : M S unit :=
  let* adjusted := (if gtZero (BJitter backoff)
                    then callJitter duration (BJitter backoff)
                    else ret duration) in
  callSleep adjusted.

(** The state [St] is what the condition closure captures by reference
    (the object, in [tryUpdate]).

    The loop of [exponentialBackoff], entered with counter [i] and the
    current [duration]:
<<
    for i := 0; i < backoff.Steps; i++ {
      if ok, err := condition(); err != nil || ok { return err }
      select {
      case <-ctx.Done(): return ctx.Err()
      default: ...; time.Sleep(adjusted); duration = ...
      }
      i++
    }
    return wait.ErrWaitTimeout
>>
    The counter is incremented twice per round: by the [i++] that ends the
    body and by the post statement of the [for].  [fuel] bounds the number
    of rounds; [backoff.Steps] rounds are enough as long as the counter
    does not wrap around ([backoffLoop_fuel] below). *)
Fixpoint backoffLoop {St : Type} (fuel : nat) (backoff : Backoff F) (i : Z)
    (duration : Duration) (condition : St -> M S (St * (bool * option error)))
    (st : St) : M S (St * option error) :=
  match fuel with
  | O => ret (st, Some ErrWaitTimeout)
  | Datatypes.S fuel' =>
    if i <? BSteps backoff then
      let* (st, (ok, err)) := condition st in
      if isErr err || ok then ret (st, err)
      else
        let* done := ctxDone in
        match done with
        | Some e => ret (st, Some e)
        | None =>
          let* _ := sleepAdjusted backoff duration in
          backoffLoop fuel' backoff (incr (incr i))
            (mulDuration duration (BFactor backoff)) condition st
        end
    else ret (st, Some ErrWaitTimeout)
  end.

Definition exponentialBackoff {St : Type} (backoff : Backoff F)
    (condition : St -> M S (St * (bool * option error))) (st : St)
    : M S (St * option error) :=
  backoffLoop (Z.to_nat (BSteps backoff)) backoff 0 (BDuration backoff) condition st.
End Backoff.

Section TryUpdate.
Context {S F Obj : Type} `{Float64 F} `{Runtime S F} `{Object Obj} `{Client S Obj}.

(** One round of [tryUpdate]: the closure handed to [exponentialBackoff].
    [transform] mutates the object the closure shares with the caller. *)
Definition tryUpdateAttempt (key : ObjectKey)
    (updateFunc : Obj -> M S (Obj * option error))
    (transform : Obj -> Obj * option error)
    (obj : Obj) : M S (Obj * (bool * option error)) :=
  let* (obj, err) := callGet key obj in
  match err with
  | Some e => ret (obj, (false, Some e))
  | None =>
    let beforeTransform := obj in
    let (obj, err) := transform obj in
    match err with
    | Some e => ret (obj, (false, Some e))
    | None =>
      if DeepEqual obj beforeTransform then ret (obj, (true, None))
      else
        let* (obj, err) := updateFunc obj in
        match err with
        | Some e =>
          if IsConflict e then ret (obj, (false, None))
          else ret (obj, (false, Some e))
        | None => ret (obj, (true, None))
        end
    end
  end.

Definition tryUpdate (backoff : Backoff F) (obj : Obj)
    (updateFunc : Obj -> M S (Obj * option error))
    (transform : Obj -> Obj * option error) : M S (Obj * option error) :=
  let key := ObjectKeyFromObject obj in
  exponentialBackoff backoff (tryUpdateAttempt key updateFunc transform) obj.

(** [tryUpdate] from a later round on: the loop entered with counter [i]
    and duration [d].  [tryUpdate] is [tryUpdateFrom] at counter 0 with the
    initial duration ([tryUpdate_from_start]), and every round that retries
    continues as [tryUpdateFrom] ([backoffLoop_round]). *)
Definition tryUpdateFrom (fuel : nat) (backoff : Backoff F) (i : Z) (d : Duration)
    (key : ObjectKey) (updateFunc : Obj -> M S (Obj * option error))
    (transform : Obj -> Obj * option error) (obj : Obj) : M S (Obj * option error) :=
  backoffLoop fuel backoff i d (tryUpdateAttempt key updateFunc transform) obj.

(** Every write of the transformed object meets a conflict: [Inv] holds of
    the states of the client and the contents of the object between two
    rounds.  In such a state the fetch succeeds, the transform succeeds and
    changes the object, the update fails with a conflict, the context is
    not done, and sleeping leads to such a state again. *)
Definition AlwaysConflicts (backoff : Backoff F) (key : ObjectKey)
    (transform : Obj -> Obj * option error) (Inv : S -> Obj -> Prop) : Prop :=
  (forall s o, Inv s o ->
     exists o1 o2 o3 e s',
       Get key o s = (o1, None) /\ transform o1 = (o2, None)
       /\ DeepEqual o2 o1 = false
       /\ Update o2 s = ((o3, Some e), s') /\ IsConflict e = true /\ Inv s' o3)
  /\ (forall s o, Inv s o -> ctxErr s = None)
  /\ (forall d s o, Inv s o -> Inv (afterSleep backoff d s) o).

Definition TryUpdate (backoff : Backoff F) (obj : Obj)
    (transform : Obj -> Obj * option error) : M S (Obj * option error) :=
  tryUpdate backoff obj callUpdate transform.

Definition TryUpdateStatus (backoff : Backoff F) (obj : Obj)
    (transform : Obj -> Obj * option error) : M S (Obj * option error) :=
  tryUpdate backoff obj callStatusUpdate transform.
End TryUpdate.

(** ** The library functions utils.go calls *)

Section Controllerutil.
Context {Obj : Type} `{Object Obj}.

(** [controllerutil.ContainsFinalizer], [AddFinalizer] and
    [RemoveFinalizer] of controller-runtime: a linear search, an append
    unless the finalizer is there, and the removal of every occurrence. *)
Definition ContainsFinalizer (o : Obj) (finalizer : string) : bool :=
  existsb (String.eqb finalizer) (GetFinalizers o).

Definition AddFinalizer (o : Obj) (finalizer : string) : Obj :=
  if existsb (String.eqb finalizer) (GetFinalizers o) then o
  else SetFinalizers (GetFinalizers o ++ [finalizer]) o.

Definition RemoveFinalizer (o : Obj) (finalizer : string) : Obj :=
  SetFinalizers (List.filter (fun e => negb (String.eqb e finalizer)) (GetFinalizers o)) o.
End Controllerutil.

Section Retry.
Context {S F : Type} `{Float64 F} `{Runtime S F}.

(** [wait.ExponentialBackoff] of k8s.io/apimachinery, which is not part of
    this repository; written from the library:
<<
    for backoff.Steps > 0 {
      if ok, err := condition(); err != nil || ok { return err }
      if backoff.Steps == 1 { break }
      time.Sleep(backoff.Step())
    }
    return ErrWaitTimeout
>>
    [Step] decrements [Steps], returns the current duration (jittered when
    [Jitter > 0]) and multiplies the duration by [Factor] when
    [Factor != 0].  The cap of the library's backoff is left out: neither
    [retry.DefaultRetry] nor this model's [Backoff] has one.  [steps] rounds
    of fuel are enough ([waitLoop_fuel]). *)
Fixpoint waitLoop {St : Type} (fuel : nat) (backoff : Backoff F) (steps : Z)
    (duration : Duration) (condition : St -> M S (St * (bool * option error)))
    (st : St) : M S (St * option error) :=
  match fuel with
  | O => ret (st, Some ErrWaitTimeout)
  | Datatypes.S fuel' =>
    if 0 <? steps then
      let* (st, (ok, err)) := condition st in
      if isErr err || ok then ret (st, err)
      else if steps =? 1 then ret (st, Some ErrWaitTimeout)
      else
        let* _ := sleepAdjusted backoff duration in
        waitLoop fuel' backoff (steps - 1)
          (if neZero (BFactor backoff)
           then mulDuration duration (BFactor backoff) else duration)
          condition st
    else ret (st, Some ErrWaitTimeout)
  end.

Definition ExponentialBackoff {St : Type} (backoff : Backoff F)
    (condition : St -> M S (St * (bool * option error))) (st : St)
    : M S (St * option error) :=
  waitLoop (Z.to_nat (BSteps backoff)) backoff (BSteps backoff) (BDuration backoff)
    condition st.

Definition isWaitTimeout (err : option error) : bool :=
  match err with Some ErrWaitTimeout => true | _ => false end.

(** [retry.OnError] of k8s.io/client-go: the closure of the library keeps
    the last retriable error in [lastErr], which the loop state carries
    here next to the state of [fn]. *)
Definition onErrorCondition {St : Type} (retriable : error -> bool)
    (fn : St -> M S (St * option error)) (st : St * option error)
    : M S ((St * option error) * (bool * option error)) :=
  let* (st', err) := fn (fst st) in
  match err with
  | None => ret ((st', snd st), (true, None))
  | Some e =>
    if retriable e then ret ((st', Some e), (false, None))
    else ret ((st', snd st), (false, Some e))
  end.

Definition OnError {St : Type} (backoff : Backoff F) (retriable : error -> bool)
    (fn : St -> M S (St * option error)) (st : St) : M S (St * option error) :=
  let* ((st, lastErr), err) :=
    ExponentialBackoff backoff (onErrorCondition retriable fn) (st, None) in
  ret (st, if isWaitTimeout err then lastErr else err).

(** [retry.RetryOnConflict] and [retry.DefaultRetry]
    ([Steps: 5, Duration: 10ms, Factor: 1.0, Jitter: 0.1]). *)
Definition RetryOnConflict {St : Type} (backoff : Backoff F)
    (fn : St -> M S (St * option error)) (st : St) : M S (St * option error) :=
  OnError backoff IsConflict fn st.

Definition DefaultRetry : Backoff F :=
  mkBackoff 10000000 (floatLit 1%Q) (floatLit (1 # 10)%Q) 5.
End Retry.

(** ** utils.go: EnsureFinalizer and DeleteFinalizer *)

Section Finalizers.
Context {S F Obj : Type} `{Float64 F} `{Runtime S F} `{Object Obj} `{Client S Obj}.

(** The closure [EnsureFinalizer] hands to [retry.RetryOnConflict]. *)
Definition ensureFinalizerAttempt (finalizerName : string) (obj : Obj)
    : M S (Obj * option error) :=
  let* (obj, err) := callGet (ObjectKeyFromObject obj) obj in
  match err with
  | Some e => ret (obj, Some e)
  | None =>
    if ContainsFinalizer obj finalizerName then ret (obj, None)
    else
      let beforePatch := obj in
      let obj := AddFinalizer obj finalizerName in
      callPatch obj beforePatch
  end.

Definition EnsureFinalizer (finalizerName : string) (obj : Obj)
    : M S (Obj * option error) :=
  RetryOnConflict DefaultRetry (ensureFinalizerAttempt finalizerName) obj.

(** The closure [DeleteFinalizer] hands to [retry.RetryOnConflict]. *)
Definition deleteFinalizerAttempt (finalizerName : string) (obj : Obj)
    : M S (Obj * option error) :=
  let* (obj, err) := callGet (ObjectKeyFromObject obj) obj in
  match IgnoreNotFound err with
  | Some _ => ret (obj, err)
  | None =>
    if negb (ContainsFinalizer obj finalizerName) then ret (obj, None)
    else
      let beforePatch := obj in
      let obj := RemoveFinalizer obj finalizerName in
      callPatch obj beforePatch
  end.

Definition DeleteFinalizer (finalizerName : string) (obj : Obj)
    : M S (Obj * option error) :=
  RetryOnConflict DefaultRetry (deleteFinalizerAttempt finalizerName) obj.
End Finalizers.

(** ** utils.go: TypedCreateOrUpdate *)

Inductive OperationResult : Type :=
| OperationResultNone
| OperationResultCreated
| OperationResultUpdated.

(** What [scheme.New] can hand back: an object that is no [client.Object], a
    typed object, or (when the scheme registers it so) an unstructured one. *)
Inductive SchemeObject (Typed U : Type) : Type :=
| NotClientObject
| TypedObject (t : Typed)
| UnstructuredObject (u : U).
Arguments NotClientObject {Typed U}.
Arguments TypedObject {Typed U} _.
Arguments UnstructuredObject {Typed U} _.

(** [runtime.Scheme], as far as the function uses it. *)
Record Scheme (GVK Typed U : Type) : Type := mkScheme {
  New : GVK -> error + SchemeObject Typed U;
  Convert : Typed -> error + U
}.
Arguments mkScheme {GVK Typed U} _ _.
Arguments New {GVK Typed U} _ _.
Arguments Convert {GVK Typed U} _ _.

(** The object [current] points to: a fresh typed object, a fresh
    unstructured object, or [obj] itself (the fallback [current = obj]). *)
Inductive Current (Typed U : Type) : Type :=
| CurTyped (t : Typed)
| CurUnstructured (u : U)
| CurObj.
Arguments CurTyped {Typed U} _.
Arguments CurUnstructured {Typed U} _.
Arguments CurObj {Typed U}.

Section TypedCreateOrUpdate.
Context {S GVK Typed U : Type} `{Object U} `{Client S Typed} `{Client S U}.

(** [obj.GetObjectKind().GroupVersionKind()], the [%q] rendering of its
    [String()], and [apiequality.Semantic.DeepEqual] on unstructured
    objects. *)
Variable GroupVersionKind : U -> GVK.
Variable quotedString : GVK -> string.
Variable SemanticDeepEqual : U -> U -> bool.

(** What [current] is set to: the object of the scheme, or [obj] when the
    scheme does not know the kind ("fallback to unstructured request"). *)
Definition chooseCurrent (typed : error + SchemeObject Typed U) : Current Typed U :=
  match typed with
  | inr (TypedObject t) => CurTyped t
  | inr (UnstructuredObject u) => CurUnstructured u
  | _ => CurObj
  end.

(** [c.Get(ctx, key, current)]: the call writes into what [current] points
    to, which is [obj] itself in the fallback. *)
Definition getCurrent (key : ObjectKey) (current : Current Typed U) (obj : U)
    : M S ((Current Typed U * U) * option error) :=
  match current with
  | CurTyped t => let* (t, err) := callGet key t in ret ((CurTyped t, obj), err)
  | CurUnstructured u =>
    let* (u, err) := callGet key u in ret ((CurUnstructured u, obj), err)
  | CurObj => let* (obj, err) := callGet key obj in ret ((CurObj, obj), err)
  end.

(** "convert object back to unstructured": a typed [current] is converted
    by the scheme and copied into [obj] ([u.DeepCopyInto(obj); existing = u]);
    otherwise [existing = obj.DeepCopy()].  Either way [obj] and [existing]
    hold the same value before [mutate] runs. *)
Definition toUnstructured (scheme : Scheme GVK Typed U) (current : Current Typed U)
    (obj : U) : error + U :=
  match current with
  | CurTyped t => Convert scheme t
  | _ => inr obj
  end.

(** The second half of the function, once the object is found. *)
Definition updateExisting (alwaysUpdate : bool) (mutate : U -> U * option error)
    (existing obj : U) : M S (U * (OperationResult * option error)) :=
  let (obj, err) := mutate obj in
  match err with
  | Some e => ret (obj, (OperationResultNone, Some e))
  | None =>
    if negb alwaysUpdate && SemanticDeepEqual existing obj
    then ret (obj, (OperationResultNone, None))
    else
      let* (obj, err) := callUpdate obj in
      ret (obj, (OperationResultUpdated, err))
  end.

Definition TypedCreateOrUpdate (scheme : Scheme GVK Typed U) (obj : U)
    (alwaysUpdate : bool) (mutate : U -> U * option error)
    : M S (U * (OperationResult * option error)) :=
  match New scheme (GroupVersionKind obj) with
  | inr NotClientObject =>
    ret (obj, (OperationResultNone,
               Some (Errorf ("object type " ++ quotedString (GroupVersionKind obj)
                             ++ " is unsupported"))))
  | typed =>
    let current := chooseCurrent typed in
    let* ((current, obj), err) := getCurrent (ObjectKeyFromObject obj) current obj in
    match err with
    | Some e =>
      if negb (IsNotFound e) then ret (obj, (OperationResultNone, Some e))
      else
        let (obj, err) := mutate obj in
        match err with
        | Some e => ret (obj, (OperationResultNone, Some e))
        | None =>
          let* (obj, err) := callCreate obj in
          ret (obj, (OperationResultCreated, err))
        end
    | None =>
      match toUnstructured scheme current obj with
      | inl e => ret (obj, (OperationResultNone, Some e))
      | inr existing => updateExisting alwaysUpdate mutate existing existing
      end
    end
  end.
End TypedCreateOrUpdate.

(** ** The secret reconciler *)

(** [resourcesv1alpha1.ManagedResource], as far as the reconciler reads it:
    the namespace, the nullable class and the names of the referenced
    secrets. *)
Record ManagedResource : Type := mkManagedResource {
  MRNamespace : string;
  Class : option string;
  SecretRefs : list string
}.

(** [c.List(ctx, list, client.InNamespace(ns))] for the parent resources. *)
Class Lister (S : Type) : Type := {
  ListManagedResources : string -> S -> list ManagedResource * option error
}.

Definition callList {S} `{Lister S} (ns : string)
    : M S (list ManagedResource * option error) :=
  fun w => (ListManagedResources ns (env w), emit EvList w).

(** [reconcile.Result]. *)
Record Result : Type := mkResult { Requeue : bool; RequeueAfter : Duration }.

Definition second : Duration := 1000000000.

(** Modelled from the spec: the class filter ([NewClassFilter],
    [ResourceClass], [FinalizerName]) is not among the sources.  The filter
    pairs one class with a marker name derived from it; the name follows the
    spec's example, marker [seed-finalizer] for class [seed]. *)
Record ClassFilter : Type := NewClassFilter { ResourceClass : string }.

Definition FinalizerName (f : ClassFilter) : string :=
  ResourceClass f ++ "-finalizer".

(** Modelled from the spec: a parent has the filter's class
    ([p.Class == filter.Class], the class being nullable). *)
Definition Responsible (f : ClassFilter) (p : ManagedResource) : bool :=
  match Class p with
  | Some c => String.eqb c (ResourceClass f)
  | None => false
  end.

(** Modelled from the spec: [referenced = exists p in parents :
    p.Class == filter.Class AND object.Name in p.References]. *)
Definition isReferenced (f : ClassFilter) (name : string)
    (parents : list ManagedResource) : bool :=
  existsb (fun p => Responsible f p && existsb (String.eqb name) (SecretRefs p)) parents.

Section Reconciler.
Context {S F Obj : Type} `{Float64 F} `{Runtime S F} `{Object Obj} `{Client S Obj}
        `{Lister S}.

(** The empty object the reconciler reads into ([&corev1.Secret{}]). *)
Variable emptySecret : Obj.

(** Modelled from the spec: [SecretReconciler.Reconcile] is not among the
    sources (only its test is).  Section 4.2 of the spec: fetch the object
    (not found: done; another error: failure), list the parents of its
    namespace (failure: failure), decide, call [EnsureFinalizer] or
    [DeleteFinalizer] of utils.go when the marker has to change, and report
    a failed mutation with a requeue delay of five seconds. *)
Definition Reconcile (filter : ClassFilter) (req : ObjectKey)
    : M S (Result * option error) :=
  let* (secret, err) := callGet req emptySecret in
  match err with
  | Some e =>
    if IsNotFound e then ret (mkResult false 0, None)
    else ret (mkResult false 0, Some e)
  | None =>
    let* (parents, err) := callList (GetNamespace secret) in
    match err with
    | Some e => ret (mkResult false 0, Some e)
    | None =>
      let secretIsReferenced := isReferenced filter (GetName secret) parents in
      let hasFinalizer := ContainsFinalizer secret (FinalizerName filter) in
      if secretIsReferenced && negb hasFinalizer then
        let* (_, err) := EnsureFinalizer (FinalizerName filter) secret in
        match err with
        | Some e => ret (mkResult false (5 * second), Some e)
        | None => ret (mkResult false 0, None)
        end
      else if negb secretIsReferenced && hasFinalizer then
        let* (_, err) := DeleteFinalizer (FinalizerName filter) secret in
        match err with
        | Some e => ret (mkResult false (5 * second), Some e)
        | None => ret (mkResult false 0, None)
        end
      else ret (mkResult false 0, None)
    end
  end.
End Reconciler.

(** ** An object store to run the code against *)

(** A secret: its identity, the concurrency token, the markers and a body. *)
Record Secret : Type := mkSecret {
  SNamespace : string;
  SName : string;
  ResourceVersion : N;
  Finalizers : list string;
  Data : string
}.

Definition secretEqb (a b : Secret) : bool :=
  String.eqb (SNamespace a) (SNamespace b) && String.eqb (SName a) (SName b)
  && N.eqb (ResourceVersion a) (ResourceVersion b)
  && bool_decide (Finalizers a = Finalizers b) && String.eqb (Data a) (Data b).

#[export] Instance SecretObject : Object Secret := {|
  GetNamespace := SNamespace;
  GetName := SName;
  GetFinalizers := Finalizers;
  SetFinalizers fs o :=
    mkSecret (SNamespace o) (SName o) (ResourceVersion o) fs (Data o);
  DeepEqual := secretEqb
|}.

(** The errors of the object store (section 6 of the spec): not found,
    conflict, already exists, and any other error. *)
Inductive StoreError : Type :=
| StoreNotFound
| StoreConflict
| StoreAlreadyExists
| StoreOther (msg : string).

Definition storeError (f : StoreError) : error :=
  match f with
  | StoreNotFound => NotFound
  | StoreConflict => Conflict
  | StoreAlreadyExists => AlreadyExists
  | StoreOther msg => Errorf msg
  end.

(** What another actor does while the code sleeps. *)
Inductive Interference : Type :=
| Idle
| CancelContext
| DeleteObject (key : ObjectKey).

(** Modelled from the spec: the object store is an external collaborator
    (section 6 of the spec).  It keeps the secrets by identity and the
    parent resources; a write with a stale token fails with [Conflict], a
    write to a missing object with [NotFound], and a successful write changes
    the token.  [faults] injects the error of the n-th write call (as the
    mock client of the tests does, and as a concurrent writer would), and
    [during] lists what happens during the sleeps to come. *)
Record Store : Type := mkStore {
  secrets : gmap ObjectKey Secret;
  parents : list ManagedResource;
  faults : nat -> option StoreError;
  writes : nat;
  during : list Interference;
  cancelled : option error
}.

Definition setSecrets (m : gmap ObjectKey Secret) (s : Store) : Store :=
  mkStore m (parents s) (faults s) (writes s) (during s) (cancelled s).

Definition countWrite (s : Store) : Store :=
  mkStore (secrets s) (parents s) (faults s) (Datatypes.S (writes s)) (during s)
    (cancelled s).

Definition withKey (key : ObjectKey) (o : Secret) : Secret :=
  mkSecret (fst key) (snd key) (ResourceVersion o) (Finalizers o) (Data o).

Definition bump (o : Secret) : Secret :=
  mkSecret (SNamespace o) (SName o) (N.succ (ResourceVersion o)) (Finalizers o) (Data o).

Definition storeGet (key : ObjectKey) (obj : Secret) (s : Store)
    : Secret * option error :=
  match secrets s !! key with
  | Some o => (withKey key o, None)
  | None => (obj, Some NotFound)
  end.

(** A write: the injected fault if there is one, else [write] on the stored
    object. *)
Definition storeWrite (obj : Secret)
    (write : option Secret -> Secret + error) (s : Store)
    : (Secret * option error) * Store :=
  let key := ObjectKeyFromObject obj in
  let s' := countWrite s in
  match faults s (writes s) with
  | Some f => ((obj, Some (storeError f)), s')
  | None =>
    match write (secrets s !! key) with
    | inl o => ((withKey key o, None), setSecrets (<[key := withKey key o]> (secrets s)) s')
    | inr e => ((obj, Some e), s')
    end
  end.

Definition storeCreate (obj : Secret) : Store -> (Secret * option error) * Store :=
  storeWrite obj (fun stored =>
    match stored with
    | Some _ => inr AlreadyExists
    | None => inl (bump obj)
    end).

Definition storeUpdate (obj : Secret) : Store -> (Secret * option error) * Store :=
  storeWrite obj (fun stored =>
    match stored with
    | None => inr NotFound
    | Some o =>
      if N.eqb (ResourceVersion o) (ResourceVersion obj) then inl (bump obj)
      else inr Conflict
    end).

(** A secret has no status: a status update only changes the token. *)
Definition storeStatusUpdate (obj : Secret) : Store -> (Secret * option error) * Store :=
  storeWrite obj (fun stored =>
    match stored with
    | None => inr NotFound
    | Some o =>
      if N.eqb (ResourceVersion o) (ResourceVersion obj) then inl (bump o)
      else inr Conflict
    end).

(** A merge patch with the optimistic lock: the fields that differ between
    [base] and [obj] replace those of the stored object. *)
Definition storePatch (obj base : Secret) : Store -> (Secret * option error) * Store :=
  storeWrite obj (fun stored =>
    match stored with
    | None => inr NotFound
    | Some o =>
      if N.eqb (ResourceVersion o) (ResourceVersion base) then
        inl (bump (mkSecret (SNamespace o) (SName o) (ResourceVersion o)
                     (if bool_decide (Finalizers obj = Finalizers base)
                      then Finalizers o else Finalizers obj)
                     (if String.eqb (Data obj) (Data base) then Data o else Data obj)))
      else inr Conflict
    end).

#[export] Instance StoreClient : Client Store Secret := {|
  Get := storeGet;
  Create := storeCreate;
  Update := storeUpdate;
  StatusUpdate := storeStatusUpdate;
  Patch := storePatch
|}.

#[export] Instance StoreLister : Lister Store := {|
  ListManagedResources ns s :=
    (List.filter (fun p => String.eqb (MRNamespace p) ns) (parents s), None)
|}.

Definition interfere (a : Interference) (s : Store) : Store :=
  match a with
  | Idle => s
  | CancelContext =>
    mkStore (secrets s) (parents s) (faults s) (writes s) (during s) (Some Canceled)
  | DeleteObject key => setSecrets (delete key (secrets s)) s
  end.

Definition storeSleep (d : Duration) (s : Store) : Store :=
  match during s with
  | [] => s
  | a :: rest =>
    interfere a (mkStore (secrets s) (parents s) (faults s) (writes s) rest (cancelled s))
  end.

(** Rationals stand for float64 when the code is run on the store; the
    jitter draws zero. *)
Definition truncMul (d : Duration) (x : Q) : Duration :=
  Z.quot (d * Qnum x) (Zpos (Qden x)).

#[export] Instance QFloat : Float64 Q := {|
  floatLit q := q;
  gtZero x := 0 <? Qnum x;
  neZero x := negb (Qnum x =? 0);
  mulDuration := truncMul
|}.

#[export] Instance StoreRuntime : Runtime Store Q := {|
  ctxErr := cancelled;
  Sleep := storeSleep;
  Jitter d _ s := (d, s)
|}.

(** ** Scenarios

    The secret and the parent resource of the reconciler's test, and the
    stores, transforms and backoffs the examples run on. *)

Definition secretKey : ObjectKey := ("mr-ns", "mr-secret").

Definition testSecret (finalizers : list string) : Secret :=
  mkSecret "mr-ns" "mr-secret" 1 finalizers "data".

Definition emptySecret : Secret := mkSecret EmptyString EmptyString 0 [] EmptyString.

Definition testParent (class : string) (refs : list string) : ManagedResource :=
  mkManagedResource "mr-ns" (Some class) refs.

Definition noFaults : nat -> option StoreError := fun _ => None.
Definition alwaysFails (e : StoreError) : nat -> option StoreError := fun _ => Some e.
Definition failsFirst (n : nat) (e : StoreError) : nat -> option StoreError :=
  fun k => if (k <? n)%nat then Some e else None.

Definition testStore (finalizers : list string) (mrs : list ManagedResource)
    (flt : nat -> option StoreError) (acts : list Interference) : Store :=
  mkStore {[ secretKey := testSecret finalizers ]} mrs flt 0 acts None.

Definition emptyStore : Store := mkStore ∅ [] noFaults 0 [] None.

Definition start (s : Store) : World Store := mkWorld s [].

(** A transform that sets the body of the secret, and one that fails. *)
Definition setData (d : string) (o : Secret) : Secret * option error :=
  (mkSecret (SNamespace o) (SName o) (ResourceVersion o) (Finalizers o) d, None).


(** A scheme that knows the kind of the secret (the typed object and its
    generic form are both the record [Secret] here), and one that knows no
    kind. *)
Definition typedScheme : Scheme string Secret Secret :=
  mkScheme (fun _ => inr (TypedObject emptySecret)) (fun t => inr t).

Definition emptyScheme : Scheme string Secret Secret :=
  mkScheme (fun _ => inl (Errorf "no kind is registered")) (fun t => inr t).

Definition secretKind (o : Secret) : string := "/v1, Kind=Secret".

(** A backoff of [steps] steps, starting at 100ns and doubling, no jitter. *)
Definition testBackoff (steps : Z) : Backoff Q := mkBackoff 100 (2 # 1)%Q (0 # 1)%Q steps.

(** The states of [testStore] in which every write conflicts and nothing
    else happens, with the in-memory objects that name the test secret. *)
Definition contended (finalizers : list string) (s : Store) (o : Secret) : Prop :=
  secrets s = {[ secretKey := testSecret finalizers ]}
  /\ faults s = alwaysFails StoreConflict /\ during s = [] /\ cancelled s = None
  /\ ObjectKeyFromObject o = secretKey.

(** The states of a store that nobody else touches: the secrets [m], the
    parents [ps], nothing to come during the sleeps; the in-memory object
    names [key]. *)
Definition quietAt (m : gmap ObjectKey Secret) (ps : list ManagedResource)
    (key : ObjectKey) (s : Store) (o : Secret) : Prop :=
  secrets s = m /\ parents s = ps /\ during s = [] /\ ObjectKeyFromObject o = key.

(** The states in which the secret at [key] has been rewritten with the
    markers [fins], and nothing else has changed. *)
Definition markersSet (m : gmap ObjectKey Secret) (ps : list ManagedResource)
    (key : ObjectKey) (fins : list string) (s : Store) : Prop :=
  parents s = ps /\ during s = []
  /\ exists o, secrets s = <[key := o]> m /\ Finalizers o = fins.

Section PatchConflicts.
Context {S F Obj : Type} `{Float64 F} `{Runtime S F} `{Object Obj} `{Client S Obj}.

(** Every patch of the marker meets a conflict: in a state of [Inv] the
    fetch succeeds, the marker is present or absent as [present] says, the
    patch that removes or adds it fails with a conflict, and sleeping leads
    to such a state again. *)
Definition PatchAlwaysConflicts (finalizerName : string) (present : bool)
    (Inv : S -> Obj -> Prop) : Prop :=
  (forall s o, Inv s o ->
     exists o1 o2 e s',
       Get (ObjectKeyFromObject o) o s = (o1, None)
       /\ ContainsFinalizer o1 finalizerName = present
       /\ Patch (if present then RemoveFinalizer o1 finalizerName
                 else AddFinalizer o1 finalizerName) o1 s = ((o2, Some e), s')
       /\ IsConflict e = true /\ Inv s' o2)
  /\ (forall d s o, Inv s o -> Inv (afterSleep DefaultRetry d s) o).
End PatchConflicts.

(** ** What a computation adds to the trace *)

(** [emitsAtMost m allowed q n]: from any world, [m] only appends to the
    trace, every event it appends is [allowed], and at most [n] of them
    are of the kind [q]. *)
Definition emitsAtMost {S A : Type} (m : M S A) (allowed q : Event -> bool) (n : nat)
    : Prop :=
  forall w, exists ext,
    trace (snd (m w)) = (trace w ++ ext)%list
    /\ forallb allowed ext = true /\ (calls q ext <= n)%nat.

(** The number of rounds [exponentialBackoff] makes at most when it is
    entered with the counter at [i]: one for every two steps left. *)
Definition roundsFrom (steps i : Z) : nat := Z.to_nat ((steps - i + 1) / 2).

Definition isEvUpdate (e : Event) : bool := match e with EvUpdate => true | _ => false end.
Definition isEvStatusUpdate (e : Event) : bool :=
  match e with EvStatusUpdate => true | _ => false end.

(** The calls [TryUpdate], [TryUpdateStatus] and the finalizer functions
    can make. *)
Definition updateCalls (e : Event) : bool :=
  match e with EvGet | EvUpdate | EvSleep _ => true | _ => false end.
Definition statusUpdateCalls (e : Event) : bool :=
  match e with EvGet | EvStatusUpdate | EvSleep _ => true | _ => false end.
Definition patchCalls (e : Event) : bool :=
  match e with EvGet | EvPatch | EvSleep _ => true | _ => false end.

(** The sleeps of [n] rounds of [exponentialBackoff] without jitter, the
    first of them of duration [d]: each is the one before, multiplied by the
    factor. *)
Fixpoint sleepSchedule {F : Type} `{Float64 F} (factor : F) (n : nat) (d : Duration)
    : list Event :=
  match n with
  | O => []
  | Datatypes.S n' => EvSleep d :: sleepSchedule factor n' (mulDuration d factor)
  end.

(** A mock client in the manner of the reconciler's test: what [Get] and
    [List] hand back and the error of every write are fixed beforehand. *)
Record Mock : Type := mkMock {
  onGet : Secret + error;
  onList : list ManagedResource + error;
  onWrite : option error
}.

#[export] Instance MockClient : Client Mock Secret := {|
  Get _ obj m := match onGet m with inl o => (o, None) | inr e => (obj, Some e) end;
  Create obj m := ((obj, onWrite m), m);
  Update obj m := ((obj, onWrite m), m);
  StatusUpdate obj m := ((obj, onWrite m), m);
  Patch obj _ m := ((obj, onWrite m), m)
|}.

#[export] Instance MockLister : Lister Mock := {|
  ListManagedResources _ m :=
    match onList m with inl l => (l, None) | inr e => ([], Some e) end
|}.

#[export] Instance MockRuntime : Runtime Mock Q := {|
  ctxErr _ := None;
  Sleep _ m := m;
  Jitter d _ m := (d, m)
|}.

Definition fakeErr : error := Errorf "fake".

(** The secret the store holds at [key] after a successful patch of the
    markers of [sec]: the identity of the key, the next token, the markers
    [fins] and the body as it was. *)
Definition patchedSecret (key : ObjectKey) (sec : Secret) (fins : list string) : Secret :=
  mkSecret (fst key) (snd key) (N.succ (ResourceVersion sec)) fins (Data sec).

(** The backoff [backoff] with another budget of steps. *)
Definition withSteps {F : Type} (backoff : Backoff F) (steps : Z) : Backoff F :=
  mkBackoff (BDuration backoff) (BFactor backoff) (BJitter backoff) steps.

(** ** The retry of the finalizer functions, cycle by cycle *)

Section RetryFrom.
Context {S F : Type} `{Float64 F} `{Runtime S F}.

(** [retry.RetryOnConflict] entered at a later cycle: [steps] cycles are
    left of the budget, the next sleep lasts [d], and [last] is the conflict
    of the cycle before, which the closure of [retry.OnError] keeps in
    [lastErr].  [RetryOnConflict backoff fn] is this loop entered with the
    whole budget, the first duration and no error kept
    ([RetryOnConflict_from_start]). *)
Definition retryOnConflictFrom {St : Type} (fuel : nat) (backoff : Backoff F)
    (steps : Z) (d : Duration) (last : option error)
    (fn : St -> M S (St * option error)) (st : St) : M S (St * option error) :=
  let* ((st, lastErr), err) :=
    waitLoop fuel backoff steps d (onErrorCondition IsConflict fn) (st, last) in
  ret (st, if isWaitTimeout err then lastErr else err).
End RetryFrom.

Section FinalizersFrom.
Context {S F Obj : Type} `{Float64 F} `{Runtime S F} `{Object Obj} `{Client S Obj}.

(** [EnsureFinalizer] and [DeleteFinalizer] from a later cycle on. *)
Definition EnsureFinalizerFrom (fuel : nat) (steps : Z) (d : Duration)
    (last : option error) (finalizerName : string) (obj : Obj)
    : M S (Obj * option error) :=
  retryOnConflictFrom fuel DefaultRetry steps d last
    (ensureFinalizerAttempt finalizerName) obj.

Definition DeleteFinalizerFrom (fuel : nat) (steps : Z) (d : Duration)
    (last : option error) (finalizerName : string) (obj : Obj)
    : M S (Obj * option error) :=
  retryOnConflictFrom fuel DefaultRetry steps d last
    (deleteFinalizerAttempt finalizerName) obj.
End FinalizersFrom.

(** * Properties *)

Lemma wrapInt_small (z : Z) : - 2 ^ 63 <= z < 2 ^ 63 -> wrapInt z = z.
Proof.
  intros Hz. unfold wrapInt.
  rewrite Z.mod_small; lia.
Qed.

Lemma incr_incr (i : Z) : 0 <= i < maxInt - 1 -> incr (incr i) = i + 2.
Proof.
  unfold maxInt, incr. intros Hi.
  rewrite (wrapInt_small (i + 1)) by lia.
  rewrite wrapInt_small by lia. lia.
Qed.

Lemma calls_app (p : Event -> bool) (t u : list Event) :
  calls p (t ++ u) = (calls p t + calls p u)%nat.
Proof. unfold calls. now rewrite List.filter_app, List.length_app. Qed.

Section BackoffFacts.
Context {S F : Type} `{Float64 F} `{Runtime S F}.

Lemma sleepAdjusted_eq (backoff : Backoff F) (d : Duration) (w : World S) :
  sleepAdjusted backoff d w =
  (tt, mkWorld (afterSleep backoff d (env w))
         (trace w ++ [EvSleep (fst (adjustedDuration backoff d (env w)))])).
Proof.
  unfold sleepAdjusted, afterSleep, adjustedDuration, bind, callJitter, callSleep, ret, emit.
  destruct (gtZero (BJitter backoff)); reflexivity.
Qed.

(** One round of the loop, by the outcome of the condition. *)
Lemma backoffLoop_round {St : Type} (fuel : nat) (backoff : Backoff F) (i : Z)
    (d : Duration) (condition : St -> M S (St * (bool * option error)))
    (st st' : St) (w w1 : World S) (ok : bool) (err : option error) :
  i < BSteps backoff ->
  condition st w = ((st', (ok, err)), w1) ->
  backoffLoop (Datatypes.S fuel) backoff i d condition st w =
  if isErr err || ok then ((st', err), w1)
  else match ctxErr (env w1) with
       | Some e => ((st', Some e), w1)
       | None =>
         backoffLoop fuel backoff (incr (incr i)) (mulDuration d (BFactor backoff))
           condition st' (snd (sleepAdjusted backoff d w1))
       end.
Proof.
  intros Hi Hc. simpl.
  apply Z.ltb_lt in Hi. rewrite Hi.
  unfold bind at 1. rewrite Hc.
  destruct (isErr err || ok); [reflexivity|].
  unfold bind at 1, ctxDone at 1.
  destruct (ctxErr (env w1)); [reflexivity|].
  unfold bind at 1. destruct (sleepAdjusted backoff d w1) as [[] w2]. reflexivity.
Qed.

Lemma backoffLoop_exhausted {St : Type} (fuel : nat) (backoff : Backoff F) (i : Z)
    (d : Duration) (condition : St -> M S (St * (bool * option error)))
    (st : St) (w : World S) :
  BSteps backoff <= i ->
  backoffLoop fuel backoff i d condition st w = ((st, Some ErrWaitTimeout), w).
Proof.
  intros Hi. destruct fuel; simpl; [reflexivity|].
  apply Z.ltb_ge in Hi. now rewrite Hi.
Qed.
End BackoffFacts.

Lemma rounds_step (steps i : Z) :
  i < steps ->
  Z.to_nat ((steps - i + 1) / 2) = Datatypes.S (Z.to_nat ((steps - (i + 2) + 1) / 2)).
Proof.
  intros Hi.
  replace (steps - i + 1) with ((steps - (i + 2) + 1) + 1 * 2) by lia.
  rewrite Z.div_add by lia.
  rewrite Z2Nat.inj_add; [ | apply Z.div_pos; lia | lia].
  simpl. lia.
Qed.

Lemma rounds_none (steps i : Z) : steps <= i -> Z.to_nat ((steps - i + 1) / 2) = 0%nat.
Proof.
  intros Hi.
  assert ((steps - i + 1) / 2 <= 0).
  { apply Z.lt_succ_r. apply Z.div_lt_upper_bound; lia. }
  lia.
Qed.

Section NeverDone.
Context {S F : Type} `{Float64 F} `{Runtime S F} {St : Type}.
Variable backoff : Backoff F.
Variable condition : St -> M S (St * (bool * option error)).
Variable Inv : S -> St -> Prop.
Variable p : Event -> bool.
Variable c : nat.
Hypothesis p_sleep : forall d, p (EvSleep d) = false.
Hypothesis cond_retry : forall st w, Inv (env w) st ->
  exists st' w', condition st w = ((st', (false, None)), w')
                 /\ Inv (env w') st'
                 /\ calls p (trace w') = (calls p (trace w) + c)%nat.
Hypothesis ctx_live : forall s st, Inv s st -> ctxErr s = None.
Hypothesis sleep_inv : forall d s st, Inv s st -> Inv (afterSleep backoff d s) st.

(** A condition that never succeeds and never fails uses up the loop: the
    loop ends with [ErrWaitTimeout] after one round for every two steps. *)
Lemma backoffLoop_never_done (fuel : nat) : forall (i : Z) (d : Duration) (st : St) (w : World S),
  Inv (env w) st -> 0 <= i -> BSteps backoff < maxInt ->
  BSteps backoff - i <= 2 * Z.of_nat fuel ->
  exists st' w',
    backoffLoop fuel backoff i d condition st w = ((st', Some ErrWaitTimeout), w')
    /\ calls p (trace w')
       = (calls p (trace w) + Z.to_nat ((BSteps backoff - i + 1) / 2) * c)%nat.
Proof.
  induction fuel as [|fuel IH]; intros i d st w HI Hi Hmax Hfuel.
  - exists st, w. split; [reflexivity|].
    rewrite rounds_none by lia. lia.
  - destruct (Z_lt_le_dec i (BSteps backoff)) as [Hlt|Hge].
    + destruct (cond_retry st w HI) as (st1 & w1 & Hc & HI1 & Hn1).
      rewrite (backoffLoop_round fuel backoff i d condition st st1 w w1 false None Hlt Hc).
      simpl. rewrite (ctx_live _ _ HI1).
      rewrite incr_incr by lia.
      rewrite sleepAdjusted_eq. simpl.
      edestruct (IH (i + 2) (mulDuration d (BFactor backoff)) st1) as (st2 & w2 & Hl & Hn2);
        [ | | exact Hmax | | ].
      4: { exists st2, w2. split; [exact Hl|].
           rewrite Hn2. simpl. rewrite calls_app. unfold calls at 2. simpl.
           rewrite p_sleep. simpl. rewrite Hn1, (rounds_step _ _ Hlt). lia. }
      * simpl. apply sleep_inv, HI1.
      * lia.
      * lia.
    + rewrite backoffLoop_exhausted by lia.
      exists st, w. split; [reflexivity|]. rewrite rounds_none by lia. lia.
Qed.
End NeverDone.

Section TryUpdateFacts.
Context {S F Obj : Type} `{Float64 F} `{Runtime S F} `{Object Obj} `{Client S Obj}.

Lemma tryUpdate_from_start (backoff : Backoff F) (obj : Obj)
    (updateFunc : Obj -> M S (Obj * option error))
    (transform : Obj -> Obj * option error) :
  tryUpdate backoff obj updateFunc transform =
  tryUpdateFrom (Z.to_nat (BSteps backoff)) backoff 0 (BDuration backoff)
    (ObjectKeyFromObject obj) updateFunc transform obj.
Proof. reflexivity. Qed.

Section Attempt.
Variable key : ObjectKey.
Variable updateFunc : Obj -> M S (Obj * option error).
Variable transform : Obj -> Obj * option error.

Lemma attempt_get_error (obj o1 : Obj) (e : error) (w : World S) :
  Get key obj (env w) = (o1, Some e) ->
  tryUpdateAttempt key updateFunc transform obj w
  = ((o1, (false, Some e)), emit EvGet w).
Proof.
  intros Hg. unfold tryUpdateAttempt, bind, callGet. now rewrite Hg.
Qed.


Lemma attempt_unchanged (obj o1 o2 : Obj) (w : World S) :
  Get key obj (env w) = (o1, None) ->
  transform o1 = (o2, None) ->
  DeepEqual o2 o1 = true ->
  tryUpdateAttempt key updateFunc transform obj w
  = ((o2, (true, None)), emit EvGet w).
Proof.
  intros Hg Ht He. unfold tryUpdateAttempt, bind, callGet. now rewrite Hg, Ht, He.
Qed.

Lemma attempt_write (obj o1 o2 o3 : Obj) (err : option error) (w w2 : World S) :
  Get key obj (env w) = (o1, None) ->
  transform o1 = (o2, None) ->
  DeepEqual o2 o1 = false ->
  updateFunc o2 (emit EvGet w) = ((o3, err), w2) ->
  tryUpdateAttempt key updateFunc transform obj w
  = ((o3, match err with
          | Some e => if IsConflict e then (false, None) else (false, Some e)
          | None => (true, None)
          end), w2).
Proof.
  intros Hg Ht He Hu. unfold tryUpdateAttempt, bind, callGet.
  rewrite Hg, Ht, He, Hu. destruct err as [e|]; [destruct (IsConflict e)|]; reflexivity.
Qed.
End Attempt.
End TryUpdateFacts.

Section TryUpdateClaims.
Context {S F Obj : Type} `{Float64 F} `{Runtime S F} `{Object Obj} `{Client S Obj}.

(** C10. If the fetch of a round of [tryUpdate] fails, with any error
    (not-found included), the whole operation returns that error at once:
    the only call of the round is the [Get]; neither the transform nor the
    update function takes part in the result, and there is no sleep and no
    further round. *)
Theorem tryUpdate_fetch_error_aborts (fuel : nat) (backoff : Backoff F) (i : Z)
    (d : Duration) (key : ObjectKey) (updateFunc : Obj -> M S (Obj * option error))
    (transform : Obj -> Obj * option error) (obj o1 : Obj) (e : error) (w : World S) :
  i < BSteps backoff ->
  Get key obj (env w) = (o1, Some e) ->
  tryUpdateFrom (Datatypes.S fuel) backoff i d key updateFunc transform obj w
  = ((o1, Some e), emit EvGet w).
Proof.
  intros Hi Hg. unfold tryUpdateFrom.
  rewrite (backoffLoop_round _ _ _ _ _ _ _ _ _ _ _ Hi
             (attempt_get_error key updateFunc transform obj o1 e w Hg)).
  reflexivity.
Qed.

(** C5. If the transform leaves the fetched object deeply equal to the
    snapshot taken before it, the round ends the operation with success:
    the object store is as it was and the only call made is the [Get]. *)
Theorem tryUpdate_unchanged_skips_write (fuel : nat) (backoff : Backoff F) (i : Z)
    (d : Duration) (key : ObjectKey) (updateFunc : Obj -> M S (Obj * option error))
    (transform : Obj -> Obj * option error) (obj o1 o2 : Obj) (w : World S) :
  i < BSteps backoff ->
  Get key obj (env w) = (o1, None) ->
  transform o1 = (o2, None) ->
  DeepEqual o2 o1 = true ->
  let r := tryUpdateFrom (Datatypes.S fuel) backoff i d key updateFunc transform obj w in
  fst r = (o2, None) /\ env (snd r) = env w /\ trace (snd r) = (trace w ++ [EvGet])%list.
Proof.
  intros Hi Hg Ht He. unfold tryUpdateFrom.
  rewrite (backoffLoop_round _ _ _ _ _ _ _ _ _ _ _ Hi
             (attempt_unchanged key updateFunc transform obj o1 o2 w Hg Ht He)).
  simpl. auto.
Qed.


(** C4, as amended.  The context is looked at once per round, after a
    round that ended in a conflict and before the sleep: if it is done
    then, the operation returns [ctx.Err()] at once, without a sleep and
    without another round. *)
Theorem tryUpdate_cancelled_before_sleep (fuel : nat) (backoff : Backoff F) (i : Z)
    (d : Duration) (key : ObjectKey) (updateFunc : Obj -> M S (Obj * option error))
    (transform : Obj -> Obj * option error) (obj o1 o2 o3 : Obj) (e ctxe : error)
    (w w2 : World S) :
  i < BSteps backoff ->
  Get key obj (env w) = (o1, None) ->
  transform o1 = (o2, None) ->
  DeepEqual o2 o1 = false ->
  updateFunc o2 (emit EvGet w) = ((o3, Some e), w2) ->
  IsConflict e = true ->
  ctxErr (env w2) = Some ctxe ->
  tryUpdateFrom (Datatypes.S fuel) backoff i d key updateFunc transform obj w
  = ((o3, Some ctxe), w2).
Proof.
  intros Hi Hg Ht He Hu Hc Hctx. unfold tryUpdateFrom.
  pose proof (attempt_write key updateFunc transform obj o1 o2 o3 (Some e) w w2
                Hg Ht He Hu) as Ha.
  cbv beta iota in Ha. rewrite Hc in Ha.
  rewrite (backoffLoop_round _ _ _ _ _ _ _ _ _ _ _ Hi Ha).
  simpl. now rewrite Hctx.
Qed.
End TryUpdateClaims.

Section BudgetClaim.
Context {S F Obj : Type} `{Float64 F} `{Runtime S F} `{Object Obj} `{Client S Obj}.

Lemma attempt_conflicts (backoff : Backoff F) (key : ObjectKey)
    (transform : Obj -> Obj * option error) (Inv : S -> Obj -> Prop)
    (p : Event -> bool) :
  AlwaysConflicts backoff key transform Inv ->
  p EvGet || p EvUpdate = true -> p EvGet && p EvUpdate = false ->
  forall st w, Inv (env w) st ->
    exists st' w',
      tryUpdateAttempt key callUpdate transform st w = ((st', (false, None)), w')
      /\ Inv (env w') st'
      /\ calls p (trace w') = (calls p (trace w) + 1)%nat.
Proof.
  intros (Hround & _ & _) Hp1 Hp2 st w HI.
  destruct (Hround _ _ HI) as (o1 & o2 & o3 & e & s' & Hg & Ht & He & Hu & Hc & HI').
  exists o3, (emit EvUpdate (mkWorld s' (trace w ++ [EvGet]))).
  split; [|split].
  - pose proof (attempt_write key callUpdate transform st o1 o2 o3 (Some e) w
                  (emit EvUpdate (mkWorld s' (trace w ++ [EvGet]))) Hg Ht He) as Ha.
    cbv beta iota in Ha. rewrite Hc in Ha. apply Ha.
    unfold callUpdate, emit. simpl. now rewrite Hu.
  - exact HI'.
  - unfold emit. simpl. rewrite !calls_app. unfold calls. simpl.
    destruct (p EvGet), (p EvUpdate); simpl in *; try discriminate; lia.
Qed.

(** C2, as the code has it.  When every write meets a conflict, [TryUpdate]
    fails with [wait.ErrWaitTimeout], after one fetch and one write for
    every two steps of the budget (the counter of the loop is incremented
    twice a round): [(steps + 1) / 2] rounds, not [steps]. *)
Theorem TryUpdate_conflicts_use_two_steps_a_round (backoff : Backoff F)
    (transform : Obj -> Obj * option error) (Inv : S -> Obj -> Prop)
    (obj : Obj) (w : World S) :
  AlwaysConflicts backoff (ObjectKeyFromObject obj) transform Inv ->
  Inv (env w) obj ->
  0 <= BSteps backoff < maxInt ->
  let r := TryUpdate backoff obj transform w in
  snd (fst r) = Some ErrWaitTimeout
  /\ calls isGet (trace (snd r))
     = (calls isGet (trace w) + Z.to_nat ((BSteps backoff + 1) / 2))%nat
  /\ calls isUpdate (trace (snd r))
     = (calls isUpdate (trace w) + Z.to_nat ((BSteps backoff + 1) / 2))%nat.
Proof.
  intros HA HI Hsteps r. subst r.
  unfold TryUpdate, tryUpdate, exponentialBackoff.
  pose proof HA as (_ & Hctx & Hsleep).
  destruct (backoffLoop_never_done backoff
              (tryUpdateAttempt (ObjectKeyFromObject obj) callUpdate transform) Inv
              isGet 1 (fun _ => eq_refl)
              (attempt_conflicts backoff _ transform Inv isGet HA eq_refl eq_refl)
              Hctx Hsleep (Z.to_nat (BSteps backoff)) 0 (BDuration backoff) obj w HI)
    as (st1 & w1 & Hl1 & Hn1); [lia | lia | lia |].
  destruct (backoffLoop_never_done backoff
              (tryUpdateAttempt (ObjectKeyFromObject obj) callUpdate transform) Inv
              isUpdate 1 (fun _ => eq_refl)
              (attempt_conflicts backoff _ transform Inv isUpdate HA eq_refl eq_refl)
              Hctx Hsleep (Z.to_nat (BSteps backoff)) 0 (BDuration backoff) obj w HI)
    as (st2 & w2 & Hl2 & Hn2); [lia | lia | lia |].
  rewrite Hl1 in Hl2. inversion Hl2; subst st2 w2.
  rewrite Hl1. simpl.
  rewrite Z.sub_0_r in Hn1, Hn2.
  repeat split; [rewrite Hn1 | rewrite Hn2]; lia.
Qed.
End BudgetClaim.

Lemma contended_always_conflicts (steps : Z) :
  AlwaysConflicts (testBackoff steps) secretKey (setData "x") (contended []).
Proof.
  split; [|split].
  - intros s o (Hs & Hf & Hd & Hc & Hk).
    exists (testSecret []), (fst (setData "x" (testSecret []))),
           (fst (setData "x" (testSecret []))), Conflict, (countWrite s).
    repeat split; try assumption.
    + simpl. unfold storeGet. rewrite Hs. reflexivity.
    + simpl. unfold storeUpdate, storeWrite. rewrite Hf. reflexivity.
  - intros s o (_ & _ & _ & Hc & _). exact Hc.
  - intros d s o (Hs & Hf & Hd & Hc & Hk).
    unfold afterSleep, adjustedDuration. simpl. unfold storeSleep. rewrite Hd.
    repeat split; assumption.
Qed.

(** With a budget of two steps the operation gives up after one round. *)
Lemma TryUpdate_conflicts_witness :
  let r := TryUpdate (testBackoff 2) (testSecret []) (setData "x")
             (start (testStore [] [] (alwaysFails StoreConflict) [])) in
  snd (fst r) = Some ErrWaitTimeout
  /\ calls isGet (trace (snd r)) = 1%nat
  /\ calls isUpdate (trace (snd r)) = 1%nat.
Proof.
  apply (TryUpdate_conflicts_use_two_steps_a_round (testBackoff 2) (setData "x")
           (contended [])
           (testSecret []) (start (testStore [] [] (alwaysFails StoreConflict) []))).
  - apply contended_always_conflicts.
  - repeat split; reflexivity.
  - unfold maxInt; simpl; lia.
Defined.

Lemma tryUpdate_fetch_error_witness :
  tryUpdateFrom 3 (testBackoff 3) 0 100 secretKey callUpdate (setData "x")
    (testSecret []) (start emptyStore)
  = ((testSecret [], Some NotFound), emit EvGet (start emptyStore)).
Proof.
  apply tryUpdate_fetch_error_aborts; [simpl; lia | reflexivity].
Defined.

Lemma tryUpdate_unchanged_witness :
  let w := start (testStore [] [] noFaults []) in
  let r := tryUpdateFrom 3 (testBackoff 3) 0 100 secretKey callUpdate (setData "data")
             (testSecret []) w in
  fst r = (testSecret [], None) /\ env (snd r) = env w /\ trace (snd r) = [EvGet].
Proof.
  apply (tryUpdate_unchanged_skips_write 2 (testBackoff 3) 0 100 secretKey callUpdate
           (setData "data") (testSecret []) (testSecret []) (testSecret [])
           (start (testStore [] [] noFaults [])));
    [simpl; lia | reflexivity | reflexivity | reflexivity].
Defined.

Lemma tryUpdate_cancelled_witness :
  let s := mkStore {[ secretKey := testSecret [] ]} [] (alwaysFails StoreConflict) 0 []
             (Some Canceled) in
  tryUpdateFrom 3 (testBackoff 3) 0 100 secretKey callUpdate (setData "x")
    (testSecret []) (start s)
  = ((fst (setData "x" (testSecret [])), Some Canceled),
     mkWorld (countWrite s) [EvGet; EvUpdate]).
Proof.
  apply (tryUpdate_cancelled_before_sleep 2 (testBackoff 3) 0 100 secretKey callUpdate
           (setData "x") (testSecret []) (testSecret [])
           (fst (setData "x" (testSecret []))) (fst (setData "x" (testSecret [])))
           Conflict Canceled);
    [simpl; lia | reflexivity | reflexivity | reflexivity | reflexivity | reflexivity
     | reflexivity].
Defined.

(** C4 fails on the code.  A cancellation that fires during the first sleep
    (the context is live when the first round ends in a conflict, and done
    when the sleep is over) does not end the operation before the next
    round: with a budget of three steps the object is fetched and written
    once more; with a budget of two steps the operation returns
    [ErrWaitTimeout], not the error of the context. *)
Lemma cancel_during_sleep_counterexample :
  let w := start (testStore [] [] (alwaysFails StoreConflict) [CancelContext]) in
  let round1 := tryUpdateAttempt secretKey callUpdate (setData "x") (testSecret []) w in
  snd (fst round1) = (false, None)
  /\ ctxErr (env (snd round1)) = None
  /\ ctxErr (afterSleep (testBackoff 3) 100 (env (snd round1))) = Some Canceled
  /\ trace (snd (TryUpdate (testBackoff 3) (testSecret []) (setData "x") w))
     = [EvGet; EvUpdate; EvSleep 100; EvGet; EvUpdate]
  /\ snd (fst (TryUpdate (testBackoff 2) (testSecret []) (setData "x") w))
     = Some ErrWaitTimeout.
Proof. vm_compute. repeat split; reflexivity. Qed.


Section RetryFacts.
Context {S F : Type} `{Float64 F} `{Runtime S F}.

Lemma waitLoop_round {St : Type} (fuel : nat) (backoff : Backoff F) (steps : Z)
    (d : Duration) (condition : St -> M S (St * (bool * option error)))
    (st st' : St) (w w1 : World S) (ok : bool) (err : option error) :
  0 < steps ->
  condition st w = ((st', (ok, err)), w1) ->
  waitLoop (Datatypes.S fuel) backoff steps d condition st w =
  if isErr err || ok then ((st', err), w1)
  else if steps =? 1 then ((st', Some ErrWaitTimeout), w1)
  else waitLoop fuel backoff (steps - 1)
         (if neZero (BFactor backoff) then mulDuration d (BFactor backoff) else d)
         condition st' (snd (sleepAdjusted backoff d w1)).
Proof.
  intros Hs Hc. simpl.
  apply Z.ltb_lt in Hs. rewrite Hs.
  unfold bind at 1. rewrite Hc.
  destruct (isErr err || ok); [reflexivity|].
  destruct (steps =? 1); [reflexivity|].
  unfold bind at 1. destruct (sleepAdjusted backoff d w1) as [[] w2]. reflexivity.
Qed.

Lemma onErrorCondition_eq {St : Type} (retriable : error -> bool)
    (fn : St -> M S (St * option error)) (st st' : St) (last err : option error)
    (w w1 : World S) :
  fn st w = ((st', err), w1) ->
  onErrorCondition retriable fn (st, last) w =
  (match err with
   | None => ((st', last), (true, None))
   | Some e => if retriable e then ((st', Some e), (false, None))
               else ((st', last), (false, Some e))
   end, w1).
Proof.
  intros Hf. unfold onErrorCondition, bind. simpl. rewrite Hf.
  destruct err as [e|]; [destruct (retriable e)|]; reflexivity.
Qed.

Section AlwaysRetriable.
Context {St : Type}.
Variable backoff : Backoff F.
Variable retriable : error -> bool.
Variable fn : St -> M S (St * option error).
Variable Inv : S -> St -> Prop.
Variable p : Event -> bool.
Variable c : nat.
Hypothesis p_sleep : forall d, p (EvSleep d) = false.
Hypothesis fn_retriable : forall st w, Inv (env w) st ->
  exists st' e w', fn st w = ((st', Some e), w') /\ retriable e = true
                   /\ Inv (env w') st'
                   /\ calls p (trace w') = (calls p (trace w) + c)%nat.
Hypothesis sleep_inv : forall d s st, Inv s st -> Inv (afterSleep backoff d s) st.

(** A function that fails with a retriable error every time is run
    [steps] times; the loop then ends with the timeout and the last
    error is kept. *)
Lemma waitLoop_always_retriable (fuel : nat) :
  forall (steps : Z) (d : Duration) (st : St) (last : option error) (w : World S),
    Inv (env w) st -> 0 < steps -> steps <= Z.of_nat fuel ->
    exists st' e w',
      waitLoop fuel backoff steps d (onErrorCondition retriable fn) (st, last) w
      = (((st', Some e), Some ErrWaitTimeout), w')
      /\ retriable e = true
      /\ calls p (trace w') = (calls p (trace w) + Z.to_nat steps * c)%nat.
Proof.
  induction fuel as [|fuel IH]; intros steps d st last w HI Hs Hf; [lia|].
  destruct (fn_retriable st w HI) as (st1 & e & w1 & Hfn & Hr & HI1 & Hn1).
  pose proof (onErrorCondition_eq retriable fn st st1 last (Some e) w w1 Hfn) as Hc.
  cbv beta iota in Hc. rewrite Hr in Hc.
  rewrite (waitLoop_round fuel backoff steps d _ _ _ _ _ _ _ Hs Hc). simpl.
  destruct (Z.eqb_spec steps 1) as [->|Hne].
  - exists st1, e, w1. repeat split; [exact Hr|]. rewrite Hn1. simpl. lia.
  - rewrite sleepAdjusted_eq. simpl.
    edestruct (IH (steps - 1)
                 (if neZero (BFactor backoff)
                  then mulDuration d (BFactor backoff) else d) st1 (Some e))
      as (st2 & e2 & w2 & Hl & Hr2 & Hn2); [ | | | ].
    4: { exists st2, e2, w2. split; [exact Hl|]. split; [exact Hr2|].
         rewrite Hn2. simpl. rewrite calls_app. unfold calls at 2. simpl.
         rewrite p_sleep. simpl. rewrite Hn1.
         replace (Z.to_nat steps) with (Datatypes.S (Z.to_nat (steps - 1))) by lia.
         lia. }
    + simpl. apply sleep_inv, HI1.
    + lia.
    + lia.
Qed.

Lemma OnError_always_retriable (st : St) (w : World S) :
  Inv (env w) st -> 0 < BSteps backoff ->
  exists st' e w',
    OnError backoff retriable fn st w = ((st', Some e), w')
    /\ retriable e = true
    /\ calls p (trace w')
       = (calls p (trace w) + Z.to_nat (BSteps backoff) * c)%nat.
Proof.
  intros HI Hs.
  destruct (waitLoop_always_retriable (Z.to_nat (BSteps backoff)) (BSteps backoff)
              (BDuration backoff) st None w HI Hs) as (st' & e & w' & Hl & Hr & Hn);
    [lia|].
  exists st', e, w'. split; [|split; assumption].
  unfold OnError, ExponentialBackoff, bind. rewrite Hl. reflexivity.
Qed.
End AlwaysRetriable.
End RetryFacts.

Lemma IsConflict_eq (e : error) : IsConflict e = true -> e = Conflict.
Proof. destruct e; simpl; congruence. Qed.

Section FinalizerClaims.
Context {S F Obj : Type} `{Float64 F} `{Runtime S F} `{Object Obj} `{Client S Obj}.

Lemma ensure_attempt_conflicts (finalizerName : string) (Inv : S -> Obj -> Prop)
    (p : Event -> bool) :
  PatchAlwaysConflicts finalizerName false Inv ->
  p EvGet || p EvPatch = true -> p EvGet && p EvPatch = false ->
  forall st w, Inv (env w) st ->
    exists st' e w',
      ensureFinalizerAttempt finalizerName st w = ((st', Some e), w')
      /\ IsConflict e = true /\ Inv (env w') st'
      /\ calls p (trace w') = (calls p (trace w) + 1)%nat.
Proof.
  intros (Hround & _) Hp1 Hp2 st w HI.
  destruct (Hround _ _ HI) as (o1 & o2 & e & s' & Hg & Hc & Hpatch & He & HI').
  exists o2, e, (emit EvPatch (mkWorld s' (trace w ++ [EvGet]))).
  split; [|split; [exact He|split; [exact HI'|]]].
  - unfold ensureFinalizerAttempt, bind, callGet, callPatch, emit.
    cbn [env trace]. rewrite Hg. cbv beta iota. rewrite Hc. cbn [env trace].
    rewrite Hpatch. reflexivity.
  - unfold emit. simpl. rewrite !calls_app. unfold calls. simpl.
    destruct (p EvGet), (p EvPatch); simpl in *; try discriminate; lia.
Qed.

Lemma delete_attempt_conflicts (finalizerName : string) (Inv : S -> Obj -> Prop)
    (p : Event -> bool) :
  PatchAlwaysConflicts finalizerName true Inv ->
  p EvGet || p EvPatch = true -> p EvGet && p EvPatch = false ->
  forall st w, Inv (env w) st ->
    exists st' e w',
      deleteFinalizerAttempt finalizerName st w = ((st', Some e), w')
      /\ IsConflict e = true /\ Inv (env w') st'
      /\ calls p (trace w') = (calls p (trace w) + 1)%nat.
Proof.
  intros (Hround & _) Hp1 Hp2 st w HI.
  destruct (Hround _ _ HI) as (o1 & o2 & e & s' & Hg & Hc & Hpatch & He & HI').
  exists o2, e, (emit EvPatch (mkWorld s' (trace w ++ [EvGet]))).
  split; [|split; [exact He|split; [exact HI'|]]].
  - unfold deleteFinalizerAttempt, bind, callGet, callPatch, emit.
    cbn [env trace]. rewrite Hg. cbv beta iota. cbn [IgnoreNotFound negb].
    rewrite Hc. cbn [env trace negb]. rewrite Hpatch. reflexivity.
  - unfold emit. simpl. rewrite !calls_app. unfold calls. simpl.
    destruct (p EvGet), (p EvPatch); simpl in *; try discriminate; lia.
Qed.

Lemma retried_five_times (fn : Obj -> M S (Obj * option error))
    (Inv : S -> Obj -> Prop) (obj : Obj) (w : World S) :
  (forall p, p EvGet || p EvPatch = true -> p EvGet && p EvPatch = false ->
     forall st w, Inv (env w) st ->
       exists st' e w', fn st w = ((st', Some e), w') /\ IsConflict e = true
                        /\ Inv (env w') st'
                        /\ calls p (trace w') = (calls p (trace w) + 1)%nat) ->
  (forall d s o, Inv s o -> Inv (afterSleep DefaultRetry d s) o) ->
  Inv (env w) obj ->
  let r := RetryOnConflict DefaultRetry fn obj w in
  snd (fst r) = Some Conflict
  /\ calls isGet (trace (snd r)) = (calls isGet (trace w) + 5)%nat
  /\ calls isPatch (trace (snd r)) = (calls isPatch (trace w) + 5)%nat.
Proof.
  intros Hfn Hsleep HI r. subst r. unfold RetryOnConflict.
  destruct (OnError_always_retriable DefaultRetry IsConflict fn Inv isGet 1
              (fun _ => eq_refl) (Hfn isGet eq_refl eq_refl) Hsleep obj w HI)
    as (st1 & e1 & w1 & Hl1 & Hr1 & Hn1); [simpl; lia|].
  destruct (OnError_always_retriable DefaultRetry IsConflict fn Inv isPatch 1
              (fun _ => eq_refl) (Hfn isPatch eq_refl eq_refl) Hsleep obj w HI)
    as (st2 & e2 & w2 & Hl2 & Hr2 & Hn2); [simpl; lia|].
  rewrite Hl1 in Hl2. inversion Hl2; subst st2 e2 w2.
  rewrite Hl1. simpl. apply IsConflict_eq in Hr1. subst e1.
  simpl in Hn1, Hn2. repeat split; [rewrite Hn1 | rewrite Hn2]; lia.
Qed.

(** The persistent conflict.  When the patch of every cycle conflicts,
    [EnsureFinalizer] and [DeleteFinalizer] use up the five cycles of
    [retry.DefaultRetry]: the call fails with the conflict after five
    fetches and five patches. *)
Lemma finalizer_patch_conflict_is_retried (finalizerName : string)
    (Inv : S -> Obj -> Prop) (obj : Obj) (w : World S) :
  Inv (env w) obj ->
  (PatchAlwaysConflicts finalizerName false Inv ->
   let r := EnsureFinalizer finalizerName obj w in
   snd (fst r) = Some Conflict
   /\ calls isGet (trace (snd r)) = (calls isGet (trace w) + 5)%nat
   /\ calls isPatch (trace (snd r)) = (calls isPatch (trace w) + 5)%nat)
  /\ (PatchAlwaysConflicts finalizerName true Inv ->
      let r := DeleteFinalizer finalizerName obj w in
      snd (fst r) = Some Conflict
      /\ calls isGet (trace (snd r)) = (calls isGet (trace w) + 5)%nat
      /\ calls isPatch (trace (snd r)) = (calls isPatch (trace w) + 5)%nat).
Proof.
  intros HI. split; intros HA.
  - apply (retried_five_times (ensureFinalizerAttempt finalizerName) Inv obj w);
      [ | apply HA | exact HI].
    intros p. now apply ensure_attempt_conflicts.
  - apply (retried_five_times (deleteFinalizerAttempt finalizerName) Inv obj w);
      [ | apply HA | exact HI].
    intros p. now apply delete_attempt_conflicts.
Qed.

(** C9 fails on the code.  When the fetch reports not-found and leaves the
    object of the caller as it is, and that object carries the finalizer,
    [DeleteFinalizer] goes on to patch the object: an error of the patch
    that is no conflict (the not-found of the store, say; the library
    swallows its own [wait.ErrWaitTimeout]) is what the call returns. *)
Theorem DeleteFinalizer_not_found_still_patches (finalizerName : string)
    (obj o2 : Obj) (e : error) (s' : S) (w : World S) :
  Get (ObjectKeyFromObject obj) obj (env w) = (obj, Some NotFound) ->
  ContainsFinalizer obj finalizerName = true ->
  Patch (RemoveFinalizer obj finalizerName) obj (env w) = ((o2, Some e), s') ->
  IsConflict e = false ->
  isWaitTimeout (Some e) = false ->
  DeleteFinalizer finalizerName obj w
  = ((o2, Some e), mkWorld s' (trace w ++ [EvGet; EvPatch])).
Proof.
  intros Hg Hc Hp He Hw.
  assert (Ha : deleteFinalizerAttempt finalizerName obj w
               = ((o2, Some e), mkWorld s' (trace w ++ [EvGet; EvPatch]))).
  { unfold deleteFinalizerAttempt, bind, callGet, callPatch, emit.
    cbn [env trace]. rewrite Hg. cbv beta iota. cbn [IgnoreNotFound IsNotFound].
    rewrite Hc. cbn [env trace negb]. rewrite Hp. cbn [negb fst snd].
    now rewrite <- app_assoc. }
  pose proof (onErrorCondition_eq IsConflict _ obj o2 None (Some e) w _ Ha) as Hcnd.
  cbv beta iota in Hcnd. rewrite He in Hcnd.
  unfold DeleteFinalizer, RetryOnConflict, OnError, ExponentialBackoff, bind.
  change (Z.to_nat (BSteps (DefaultRetry (F:=F)))) with 5%nat.
  rewrite (waitLoop_round 4 DefaultRetry 5 _ _ _ _ _ _ _ _ ltac:(lia) Hcnd).
  cbn [isErr orb]. cbv beta iota. now rewrite Hw.
Qed.

(** The other half of the not-found path: without the finalizer on the
    object of the caller, the call is a success and makes no write. *)
Lemma DeleteFinalizer_not_found_without_marker (finalizerName : string)
    (obj : Obj) (w : World S) :
  Get (ObjectKeyFromObject obj) obj (env w) = (obj, Some NotFound) ->
  ContainsFinalizer obj finalizerName = false ->
  DeleteFinalizer finalizerName obj w = ((obj, None), emit EvGet w).
Proof.
  intros Hg Hc.
  assert (Ha : deleteFinalizerAttempt finalizerName obj w = ((obj, None), emit EvGet w)).
  { unfold deleteFinalizerAttempt, bind, callGet. rewrite Hg. simpl. now rewrite Hc. }
  pose proof (onErrorCondition_eq IsConflict _ obj obj None None w _ Ha) as Hcnd.
  cbv beta iota in Hcnd.
  unfold DeleteFinalizer, RetryOnConflict, OnError, ExponentialBackoff, bind.
  change (Z.to_nat (BSteps (DefaultRetry (F:=F)))) with 5%nat.
  rewrite (waitLoop_round 4 DefaultRetry 5 _ _ _ _ _ _ _ _ ltac:(lia) Hcnd).
  reflexivity.
Qed.
End FinalizerClaims.

Lemma contended_patch_conflicts (present : bool) :
  PatchAlwaysConflicts "seed-finalizer" present
    (contended (if present then ["seed-finalizer"] else [])).
Proof.
  split.
  - intros s o (Hs & Hf & Hd & Hc & Hk).
    exists (testSecret (if present then ["seed-finalizer"] else [])),
           (testSecret (if present then [] else ["seed-finalizer"])),
           Conflict, (countWrite s).
    split; [|split; [|split; [|split]]].
    + rewrite Hk. simpl. unfold storeGet. rewrite Hs. now destruct present.
    + now destruct present.
    + simpl. unfold storePatch, storeWrite. rewrite Hf. now destruct present.
    + reflexivity.
    + repeat split; assumption.
  - intros d s o (Hs & Hf & Hd & Hc & Hk).
    unfold afterSleep, adjustedDuration. simpl. unfold storeSleep. rewrite Hd.
    repeat split; assumption.
Qed.

Lemma finalizer_patch_conflict_witness :
  let contendedStore fins := start (testStore fins [] (alwaysFails StoreConflict) []) in
  (let r := EnsureFinalizer "seed-finalizer" (testSecret []) (contendedStore []) in
   snd (fst r) = Some Conflict
   /\ calls isGet (trace (snd r)) = 5%nat /\ calls isPatch (trace (snd r)) = 5%nat)
  /\ (let r := DeleteFinalizer "seed-finalizer" (testSecret ["seed-finalizer"])
                 (contendedStore ["seed-finalizer"]) in
      snd (fst r) = Some Conflict
      /\ calls isGet (trace (snd r)) = 5%nat /\ calls isPatch (trace (snd r)) = 5%nat).
Proof.
  split.
  - apply (proj1 (finalizer_patch_conflict_is_retried "seed-finalizer" (contended [])
                    (testSecret []) (start (testStore [] [] (alwaysFails StoreConflict) []))
                    ltac:(repeat split))).
    apply (contended_patch_conflicts false).
  - apply (proj2 (finalizer_patch_conflict_is_retried "seed-finalizer"
                    (contended ["seed-finalizer"]) (testSecret ["seed-finalizer"])
                    (start (testStore ["seed-finalizer"] [] (alwaysFails StoreConflict) []))
                    ltac:(repeat split))).
    apply (contended_patch_conflicts true).
Defined.


(** The secret is gone from the store and the object of the caller still
    carries the finalizer: the call patches and fails with not-found. *)
Lemma DeleteFinalizer_not_found_witness :
  DeleteFinalizer "seed-finalizer" (testSecret ["seed-finalizer"]) (start emptyStore)
  = ((testSecret [], Some NotFound), mkWorld (countWrite emptyStore) [EvGet; EvPatch]).
Proof.
  apply (DeleteFinalizer_not_found_still_patches "seed-finalizer"
           (testSecret ["seed-finalizer"]) (testSecret []) NotFound (countWrite emptyStore)
           (start emptyStore)); reflexivity.
Defined.

Section TypedCreateOrUpdateClaim.
Context {S GVK Typed U : Type} `{Object U} `{Client S Typed} `{Client S U}.
Variable GroupVersionKind : U -> GVK.
Variable quotedString : GVK -> string.
Variable SemanticDeepEqual : U -> U -> bool.

Lemma getCurrent_world (key : ObjectKey) (current : Current Typed U) (obj : U)
    (w : World S) :
  snd (getCurrent key current obj w) = emit EvGet w.
Proof.
  destruct current; unfold getCurrent, bind, callGet; simpl;
    match goal with |- context [Get ?k ?o ?s] => destruct (Get k o s) end;
    reflexivity.
Qed.

(** C7. With an object of the scheme (or none) to read into:
    when the fetch reports not-found, [mutate] runs, the object is created
    and the result is "created"; when the object is found, [mutate] runs on
    its generic form and, unless [alwaysUpdate] is set, the call ends with
    "none" and without a write when the forms before and after [mutate]
    are equal; otherwise the object is updated and the result is
    "updated". *)
Theorem TypedCreateOrUpdate_outcomes (scheme : Scheme GVK Typed U) (obj : U)
    (alwaysUpdate : bool) (mutate : U -> U * option error) (w w1 : World S)
    (cur1 : Current Typed U) (obj1 : U) (err : option error) :
  New scheme (GroupVersionKind obj) <> inr NotClientObject ->
  getCurrent (ObjectKeyFromObject obj) (chooseCurrent (New scheme (GroupVersionKind obj)))
    obj w = (((cur1, obj1), err), w1) ->
  let run := TypedCreateOrUpdate GroupVersionKind quotedString SemanticDeepEqual
               scheme obj alwaysUpdate mutate w in
  w1 = emit EvGet w
  /\ (forall e obj2,
        err = Some e -> IsNotFound e = true -> mutate obj1 = (obj2, None) ->
        run = (let c := callCreate obj2 w1 in
               ((fst (fst c), (OperationResultCreated, snd (fst c))), snd c)))
  /\ (forall existing obj2,
        err = None -> toUnstructured scheme cur1 obj1 = inr existing ->
        mutate existing = (obj2, None) ->
        (alwaysUpdate = false -> SemanticDeepEqual existing obj2 = true ->
         run = ((obj2, (OperationResultNone, None)), w1))
        /\ (alwaysUpdate = true \/ SemanticDeepEqual existing obj2 = false ->
            run = (let c := callUpdate obj2 w1 in
                   ((fst (fst c), (OperationResultUpdated, snd (fst c))), snd c)))).
Proof.
  intros Hnew Hget run.
  assert (Hrun : run =
    (let* ((current, obj), err) :=
       getCurrent (ObjectKeyFromObject obj)
         (chooseCurrent (New scheme (GroupVersionKind obj))) obj in
     match err with
     | Some e =>
       if negb (IsNotFound e) then ret (obj, (OperationResultNone, Some e))
       else
         let (obj, err) := mutate obj in
         match err with
         | Some e => ret (obj, (OperationResultNone, Some e))
         | None =>
           let* (obj, err) := callCreate obj in
           ret (obj, (OperationResultCreated, err))
         end
     | None =>
       match toUnstructured scheme current obj with
       | inl e => ret (obj, (OperationResultNone, Some e))
       | inr existing =>
         updateExisting SemanticDeepEqual alwaysUpdate mutate existing existing
       end
     end) w).
  { subst run. unfold TypedCreateOrUpdate.
    destruct (New scheme (GroupVersionKind obj)) as [e|[|t|u]];
      [reflexivity | congruence | reflexivity | reflexivity]. }
  split; [|split].
  - rewrite <- (getCurrent_world (ObjectKeyFromObject obj)
                  (chooseCurrent (New scheme (GroupVersionKind obj))) obj w).
    now rewrite Hget.
  - intros e obj2 -> Hnf Hm. rewrite Hrun. unfold bind at 1. rewrite Hget.
    cbv beta iota. rewrite Hnf. cbn [negb]. rewrite Hm.
    unfold bind, ret. destruct (callCreate obj2 w1) as [[o3 e3] w3]. reflexivity.
  - intros existing obj2 -> Hconv Hm.
    assert (Hrun' : run = updateExisting SemanticDeepEqual alwaysUpdate mutate
                            existing existing w1).
    { rewrite Hrun. unfold bind at 1. rewrite Hget. cbv beta iota.
      now rewrite Hconv. }
    split.
    + intros -> Heq. rewrite Hrun'. unfold updateExisting. rewrite Hm.
      cbn [negb andb]. now rewrite Heq.
    + intros Hw. rewrite Hrun'. unfold updateExisting. rewrite Hm.
      assert (Hc : negb alwaysUpdate && SemanticDeepEqual existing obj2 = false).
      { destruct Hw as [-> | ->]; [reflexivity | apply andb_false_r]. }
      rewrite Hc. unfold bind, ret.
      destruct (callUpdate obj2 w1) as [[o3 e3] w3]. reflexivity.
Qed.
End TypedCreateOrUpdateClaim.

Lemma TypedCreateOrUpdate_witness :
  let run s mutate :=
    TypedCreateOrUpdate secretKind (fun k => k) secretEqb typedScheme (testSecret [])
      false mutate (start s) in
  let stored := start (testStore [] [] noFaults []) in
  let changed := fst (setData "x" (testSecret [])) in
  run emptyStore (setData "x")
  = ((bump changed, (OperationResultCreated, None)),
     mkWorld (setSecrets {[ secretKey := bump changed ]} (countWrite emptyStore))
       [EvGet; EvCreate])
  /\ run (env stored) (setData "data")
     = ((testSecret [], (OperationResultNone, None)), emit EvGet stored)
  /\ run (env stored) (setData "x")
     = ((bump changed, (OperationResultUpdated, None)),
        mkWorld (setSecrets {[ secretKey := bump changed ]} (countWrite (env stored)))
          [EvGet; EvUpdate]).
Proof.
  intros run stored changed.
  assert (Hnew : New typedScheme (secretKind (testSecret [])) <> inr NotClientObject)
    by discriminate.
  assert (Hmiss : getCurrent (ObjectKeyFromObject (testSecret []))
                    (chooseCurrent (New typedScheme (secretKind (testSecret []))))
                    (testSecret []) (start emptyStore)
                  = (((CurTyped emptySecret, testSecret []), Some NotFound),
                     emit EvGet (start emptyStore))) by reflexivity.
  assert (Hfound : getCurrent (ObjectKeyFromObject (testSecret []))
                     (chooseCurrent (New typedScheme (secretKind (testSecret []))))
                     (testSecret []) stored
                   = (((CurTyped (testSecret []), testSecret []), None),
                      emit EvGet stored)) by reflexivity.
  assert (Hx : setData "x" (testSecret []) = (changed, None)) by reflexivity.
  assert (Hd : setData "data" (testSecret []) = (testSecret [], None)) by reflexivity.
  split; [|split].
  - etransitivity.
    + apply (proj1 (proj2 (TypedCreateOrUpdate_outcomes secretKind (fun k => k) secretEqb
                             typedScheme (testSecret []) false (setData "x") _ _ _ _ _
                             Hnew Hmiss)) NotFound changed eq_refl eq_refl Hx).
    + vm_compute. reflexivity.
  - apply (proj1 (proj2 (proj2 (TypedCreateOrUpdate_outcomes secretKind (fun k => k)
                                  secretEqb typedScheme (testSecret []) false
                                  (setData "data") _ _ _ _ _ Hnew Hfound))
                    (testSecret []) (testSecret []) eq_refl eq_refl Hd) eq_refl).
    reflexivity.
  - etransitivity.
    + apply (proj2 (proj2 (proj2 (TypedCreateOrUpdate_outcomes secretKind (fun k => k)
                                    secretEqb typedScheme (testSecret []) false
                                    (setData "x") _ _ _ _ _ Hnew Hfound))
                      (testSecret []) changed eq_refl eq_refl Hx)).
      right. reflexivity.
    + vm_compute. reflexivity.
Defined.

Section RetryOutcomes.
Context {S F : Type} `{Float64 F} `{Runtime S F} {St : Type}.
Variable backoff : Backoff F.
Variable retriable : error -> bool.
Variable fn : St -> M S (St * option error).
Variable Inv : S -> St -> Prop.
Variable Good : S -> Prop.
Hypothesis fn_outcome : forall st w, Inv (env w) st ->
  match snd (fst (fn st w)) with
  | None => Good (env (snd (fn st w)))
  | Some e => isWaitTimeout (Some e) = false
              /\ Inv (env (snd (fn st w))) (fst (fst (fn st w)))
  end.
Hypothesis sleep_inv : forall d s st, Inv s st -> Inv (afterSleep backoff d s) st.

(** The loop of [OnError] ends in a state the function made good, or with
    an error in a state of the invariant; when the error is the timeout of
    the loop, a retriable error has been recorded. *)
Lemma waitLoop_outcome (fuel : nat) :
  forall (steps : Z) (d : Duration) (st : St) (last : option error) (w : World S),
    Inv (env w) st ->
    last <> None \/ (0 < steps /\ fuel <> 0%nat) ->
    let r := waitLoop fuel backoff steps d (onErrorCondition retriable fn) (st, last) w in
    match snd (fst r) with
    | None => Good (env (snd r))
    | Some e => (exists st', Inv (env (snd r)) st')
                /\ (isWaitTimeout (Some e) = true -> snd (fst (fst r)) <> None)
    end.
Proof.
  induction fuel as [|fuel IH]; intros steps d st last w HI Hpre.
  - simpl. split; [eauto|]. intros _. destruct Hpre as [Hl|[_ Hf]]; [exact Hl|congruence].
  - destruct (Z_lt_le_dec 0 steps) as [Hs|Hs].
    2: { simpl. apply Z.ltb_ge in Hs. rewrite Hs. simpl. split; [eauto|].
         intros _. destruct Hpre as [Hl|[Hs' _]]; [exact Hl|].
         apply Z.ltb_ge in Hs. lia. }
    pose proof (fn_outcome st w HI) as Hfn.
    destruct (fn st w) as [[st1 err] w1] eqn:Hf. simpl in Hfn.
    pose proof (onErrorCondition_eq retriable fn st st1 last err w w1 Hf) as Hc.
    destruct err as [e|].
    + destruct Hfn as [Hnt HI1]. destruct (retriable e) eqn:Hr.
      * rewrite (waitLoop_round fuel backoff steps d _ _ _ _ _ _ _ Hs Hc).
        cbn [isErr orb]. destruct (steps =? 1) eqn:H1.
        -- simpl. split; [eauto|]. intros _. discriminate.
        -- rewrite sleepAdjusted_eq. cbn [snd].
           apply IH; [simpl; apply sleep_inv, HI1 | left; discriminate].
      * rewrite (waitLoop_round fuel backoff steps d _ _ _ _ _ _ _ Hs Hc).
        simpl. split; [eauto|]. intros Hw. simpl in Hnt. congruence.
    + rewrite (waitLoop_round fuel backoff steps d _ _ _ _ _ _ _ Hs Hc).
      simpl. exact Hfn.
Qed.

Lemma OnError_outcome (st : St) (w : World S) :
  Inv (env w) st -> 0 < BSteps backoff ->
  let r := OnError backoff retriable fn st w in
  match snd (fst r) with
  | None => Good (env (snd r))
  | Some _ => exists st', Inv (env (snd r)) st'
  end.
Proof.
  intros HI Hs.
  pose proof (waitLoop_outcome (Z.to_nat (BSteps backoff)) (BSteps backoff)
                (BDuration backoff) st None w HI) as Ho.
  unfold OnError, ExponentialBackoff, bind.
  destruct (waitLoop _ _ _ _ _ _ w) as [[[st' last] err] w'].
  simpl in Ho |- *.
  specialize (Ho ltac:(right; split; [exact Hs | lia])).
  destruct err as [e|]; [|exact Ho].
  destruct Ho as [HI' Hlast].
  destruct (isWaitTimeout (Some e)) eqn:Hw; [|exact HI'].
  destruct last as [e'|]; [exact HI'|]. now specialize (Hlast Hw).
Qed.
End RetryOutcomes.

(** ** The reconciler on the object store *)

Lemma existsb_eqb_In (x : string) (l : list string) :
  existsb (String.eqb x) l = true <-> In x l.
Proof.
  rewrite existsb_exists. split.
  - intros (y & Hy & He). apply String.eqb_eq in He. now subst.
  - intros Hx. exists x. split; [exact Hx | apply String.eqb_refl].
Qed.

Lemma isReferenced_spec (f : ClassFilter) (ns name : string) (ps : list ManagedResource) :
  isReferenced f name (List.filter (fun p => String.eqb (MRNamespace p) ns) ps) = true
  <-> exists p, In p ps /\ MRNamespace p = ns /\ Class p = Some (ResourceClass f)
                /\ In name (SecretRefs p).
Proof.
  unfold isReferenced. rewrite existsb_exists. split.
  - intros (p & Hp & Hb). apply filter_In in Hp as [Hin Hns].
    apply String.eqb_eq in Hns. apply andb_true_iff in Hb as [Hr Hrefs].
    exists p. repeat split; try assumption.
    + unfold Responsible in Hr. destruct (Class p) as [c|]; [|discriminate].
      apply String.eqb_eq in Hr. now subst.
    + now apply existsb_eqb_In.
  - intros (p & Hin & Hns & Hc & Hrefs). exists p. split.
    + apply filter_In. split; [exact Hin|]. now apply String.eqb_eq.
    + apply andb_true_iff. split.
      * unfold Responsible. rewrite Hc. apply String.eqb_refl.
      * now apply existsb_eqb_In.
Qed.

Lemma patched_finalizers (a b : list string) :
  (if bool_decide (a = b) then b else a) = a.
Proof. case_bool_decide; congruence. Qed.

Lemma storeError_not_timeout (f : StoreError) : isWaitTimeout (Some (storeError f)) = false.
Proof. now destruct f. Qed.

Lemma quiet_sleep (m : gmap ObjectKey Secret) (ps : list ManagedResource)
    (key : ObjectKey) (d : Duration) (s : Store) (o : Secret) :
  quietAt m ps key s o -> quietAt m ps key (afterSleep DefaultRetry d s) o.
Proof.
  intros (Hs & Hp & Hd & Hk).
  unfold afterSleep, adjustedDuration. simpl. unfold storeSleep. rewrite Hd.
  repeat split; assumption.
Qed.

(** A patch of the markers of the secret at [key], in a quiet store: the
    injected fault, or the secret rewritten with the markers of the patched
    object. *)
Lemma quiet_patch (m : gmap ObjectKey Secret) (ps : list ManagedResource)
    (key : ObjectKey) (sec : Secret) (fins : list string) (s : Store)
    (tr : list Event) :
  m !! key = Some sec ->
  secrets s = m -> parents s = ps -> during s = [] ->
  let base := withKey key sec in
  let obj := SetFinalizers fins base in
  let r := callPatch obj base (mkWorld s tr) in
  trace (snd r) = (tr ++ [EvPatch])%list
  /\ match faults s (writes s) with
     | Some f => fst r = (obj, Some (storeError f))
                 /\ quietAt m ps key (env (snd r)) obj
     | None => snd (fst r) = None /\ markersSet m ps key fins (env (snd r))
     end.
Proof.
  intros Hm Hs Hp Hd base obj r. subst r base obj.
  assert (Hk : ObjectKeyFromObject (SetFinalizers fins (withKey key sec)) = key)
    by now destruct key.
  unfold callPatch, emit. cbn [env trace fst snd].
  split; [reflexivity|].
  unfold Patch, StoreClient, storePatch, storeWrite. cbv zeta. rewrite Hk.
  destruct (faults s (writes s)) as [f|].
  - cbn [fst snd]. split; [reflexivity|]. repeat split; assumption.
  - rewrite Hs, Hm.
    assert (Hrv : N.eqb (ResourceVersion sec) (ResourceVersion (withKey key sec)) = true)
      by apply N.eqb_refl.
    rewrite Hrv. cbn [fst snd]. split; [reflexivity|].
    split; [exact Hp|]. split; [exact Hd|].
    eexists. split; [reflexivity|]. cbn [Finalizers withKey bump].
    apply (patched_finalizers fins (Finalizers sec)).
Qed.

Section QuietStore.
Variable m : gmap ObjectKey Secret.
Variable ps : list ManagedResource.
Variable key : ObjectKey.
Variable sec : Secret.
Variable f : string.
Hypothesis Hm : m !! key = Some sec.

Lemma quiet_get (s : Store) (o : Secret) :
  quietAt m ps key s o -> Get (ObjectKeyFromObject o) o s = (withKey key sec, None).
Proof.
  intros (Hs & _ & _ & Hk). rewrite Hk. simpl. unfold storeGet. now rewrite Hs, Hm.
Qed.

Lemma ensure_attempt_quiet (o : Secret) (w : World Store) :
  ContainsFinalizer (withKey key sec) f = false ->
  quietAt m ps key (env w) o ->
  let r := ensureFinalizerAttempt f o w in
  match faults (env w) (writes (env w)) with
  | Some flt => snd (fst r) = Some (storeError flt)
                /\ quietAt m ps key (env (snd r)) (fst (fst r))
  | None => snd (fst r) = None
            /\ markersSet m ps key (Finalizers sec ++ [f]) (env (snd r))
  end.
Proof.
  intros Hc HI r. subst r. destruct w as [s tr].
  pose proof (quiet_get s o HI) as Hg. destruct HI as (Hs & Hp & Hd & Hk).
  unfold ensureFinalizerAttempt, bind, callGet. cbn [env]. rewrite Hg.
  cbv beta iota. rewrite Hc.
  assert (Ha : AddFinalizer (withKey key sec) f
               = SetFinalizers (Finalizers sec ++ [f]) (withKey key sec)).
  { unfold AddFinalizer. unfold ContainsFinalizer in Hc. now rewrite Hc. }
  rewrite Ha.
  pose proof (quiet_patch m ps key sec (Finalizers sec ++ [f]) s (tr ++ [EvGet])
                Hm Hs Hp Hd) as [_ Hpatch].
  unfold emit. cbn [env trace].
  destruct (faults s (writes s)) as [flt|].
  - destruct Hpatch as [Hr HI']. split; [now rewrite Hr | now rewrite Hr in *].
  - exact Hpatch.
Qed.

Lemma delete_attempt_quiet (o : Secret) (w : World Store) :
  ContainsFinalizer (withKey key sec) f = true ->
  quietAt m ps key (env w) o ->
  let r := deleteFinalizerAttempt f o w in
  match faults (env w) (writes (env w)) with
  | Some flt => snd (fst r) = Some (storeError flt)
                /\ quietAt m ps key (env (snd r)) (fst (fst r))
  | None => snd (fst r) = None
            /\ markersSet m ps key
                 (List.filter (fun e => negb (String.eqb e f)) (Finalizers sec))
                 (env (snd r))
  end.
Proof.
  intros Hc HI r. subst r. destruct w as [s tr].
  pose proof (quiet_get s o HI) as Hg. destruct HI as (Hs & Hp & Hd & Hk).
  unfold deleteFinalizerAttempt, bind, callGet. cbn [env]. rewrite Hg.
  cbv beta iota. cbn [IgnoreNotFound]. rewrite Hc. cbn [negb].
  assert (Ha : RemoveFinalizer (withKey key sec) f
               = SetFinalizers
                   (List.filter (fun e => negb (String.eqb e f)) (Finalizers sec))
                   (withKey key sec)) by reflexivity.
  rewrite Ha.
  pose proof (quiet_patch m ps key sec
                (List.filter (fun e => negb (String.eqb e f)) (Finalizers sec))
                s (tr ++ [EvGet]) Hm Hs Hp Hd) as [_ Hpatch].
  unfold emit. cbn [env trace].
  destruct (faults s (writes s)) as [flt|].
  - destruct Hpatch as [Hr HI']. split; [now rewrite Hr | now rewrite Hr in *].
  - exact Hpatch.
Qed.
End QuietStore.

Lemma RetryOnConflict_first_success {S F St : Type} `{Float64 F} `{Runtime S F}
    (fn : St -> M S (St * option error)) (st st' : St) (w w1 : World S) :
  fn st w = ((st', None), w1) ->
  RetryOnConflict DefaultRetry fn st w = ((st', None), w1).
Proof.
  intros Hf.
  pose proof (onErrorCondition_eq IsConflict fn st st' None None w w1 Hf) as Hc.
  cbv beta iota in Hc.
  unfold RetryOnConflict, OnError, ExponentialBackoff, bind.
  change (Z.to_nat (BSteps (DefaultRetry (F:=F)))) with 5%nat.
  rewrite (waitLoop_round 4 DefaultRetry 5 _ _ _ _ _ _ _ _ ltac:(lia) Hc).
  reflexivity.
Qed.

Section QuietFinalizers.
Variable m : gmap ObjectKey Secret.
Variable ps : list ManagedResource.
Variable key : ObjectKey.
Variable sec : Secret.
Variable f : string.
Hypothesis Hm : m !! key = Some sec.

(** In a quiet store [EnsureFinalizer] either fails and leaves the store
    as it is, or succeeds and has appended the marker; without injected
    faults it succeeds. *)
Lemma EnsureFinalizer_quiet (o : Secret) (w : World Store) :
  ContainsFinalizer (withKey key sec) f = false ->
  quietAt m ps key (env w) o ->
  let r := EnsureFinalizer f o w in
  match snd (fst r) with
  | None => markersSet m ps key (Finalizers sec ++ [f]) (env (snd r))
  | Some _ => exists o', quietAt m ps key (env (snd r)) o'
  end
  /\ ((forall n, faults (env w) n = None) -> snd (fst r) = None).
Proof.
  intros Hc HI r. subst r. split.
  - unfold EnsureFinalizer, RetryOnConflict.
    apply (OnError_outcome DefaultRetry IsConflict (ensureFinalizerAttempt f)
             (quietAt m ps key) (markersSet m ps key (Finalizers sec ++ [f])));
      [ | apply quiet_sleep | exact HI | simpl; lia].
    intros st w0 HI0.
    pose proof (ensure_attempt_quiet m ps key sec f Hm st w0 Hc HI0) as Ha.
    cbv zeta in Ha. destruct (faults (env w0) (writes (env w0))) as [flt|].
    + destruct Ha as [-> HI1]. split; [apply storeError_not_timeout | exact HI1].
    + destruct Ha as [-> HG]. exact HG.
  - intros Hnf.
    pose proof (ensure_attempt_quiet m ps key sec f Hm o w Hc HI) as Ha.
    cbv zeta in Ha. rewrite Hnf in Ha. destruct Ha as [Hnone _].
    destruct (ensureFinalizerAttempt f o w) as [[o' err] w1] eqn:He.
    simpl in Hnone. subst err.
    unfold EnsureFinalizer. now rewrite (RetryOnConflict_first_success _ _ _ _ _ He).
Qed.

Lemma DeleteFinalizer_quiet (o : Secret) (w : World Store) :
  ContainsFinalizer (withKey key sec) f = true ->
  quietAt m ps key (env w) o ->
  let r := DeleteFinalizer f o w in
  match snd (fst r) with
  | None => markersSet m ps key
              (List.filter (fun e => negb (String.eqb e f)) (Finalizers sec))
              (env (snd r))
  | Some _ => exists o', quietAt m ps key (env (snd r)) o'
  end
  /\ ((forall n, faults (env w) n = None) -> snd (fst r) = None).
Proof.
  intros Hc HI r. subst r. split.
  - unfold DeleteFinalizer, RetryOnConflict.
    apply (OnError_outcome DefaultRetry IsConflict (deleteFinalizerAttempt f)
             (quietAt m ps key)
             (markersSet m ps key
                (List.filter (fun e => negb (String.eqb e f)) (Finalizers sec))));
      [ | apply quiet_sleep | exact HI | simpl; lia].
    intros st w0 HI0.
    pose proof (delete_attempt_quiet m ps key sec f Hm st w0 Hc HI0) as Ha.
    cbv zeta in Ha. destruct (faults (env w0) (writes (env w0))) as [flt|].
    + destruct Ha as [-> HI1]. split; [apply storeError_not_timeout | exact HI1].
    + destruct Ha as [-> HG]. exact HG.
  - intros Hnf.
    pose proof (delete_attempt_quiet m ps key sec f Hm o w Hc HI) as Ha.
    cbv zeta in Ha. rewrite Hnf in Ha. destruct Ha as [Hnone _].
    destruct (deleteFinalizerAttempt f o w) as [[o' err] w1] eqn:He.
    simpl in Hnone. subst err.
    unfold DeleteFinalizer. now rewrite (RetryOnConflict_first_success _ _ _ _ _ He).
Qed.
End QuietFinalizers.

Lemma not_In_filtered (f : string) (l : list string) :
  ~ In f (List.filter (fun e => negb (String.eqb e f)) l).
Proof.
  intros Hin. apply filter_In in Hin as [_ Hn].
  rewrite String.eqb_refl in Hn. discriminate.
Qed.

(** C1. In a store that holds the secret and that nobody else touches
    during the call, whatever the markers of the secret and whatever the
    parents: a call of [Reconcile] that returns no error leaves the marker of
    the filter on the secret if and only if a parent of the namespace of the
    secret has the class of the filter and refers to the name of the secret;
    the parents are as before; when the marker already agreed with the
    parents the store is as before and nothing was written.  Without injected
    faults the call returns no error. *)
Theorem Reconcile_converges (filter : ClassFilter) (key : ObjectKey) (s : Store)
    (tr : list Event) (sec : Secret) :
  secrets s !! key = Some sec ->
  during s = [] ->
  let r := Reconcile emptySecret filter key (mkWorld s tr) in
  let referenced :=
    exists p, In p (parents s) /\ MRNamespace p = fst key
              /\ Class p = Some (ResourceClass filter) /\ In (snd key) (SecretRefs p) in
  let marked (st : Store) :=
    exists o, secrets st !! key = Some o /\ In (FinalizerName filter) (Finalizers o) in
  ((forall n, faults s n = None) -> snd (fst r) = None)
  /\ (snd (fst r) = None ->
      parents (env (snd r)) = parents s
      /\ (marked (env (snd r)) <-> referenced)
      /\ ((marked s <-> referenced) ->
          env (snd r) = s /\ trace (snd r) = (tr ++ [EvGet; EvList])%list)).
Proof.
  intros Hsec Hquiet r referenced marked.
  set (secret := withKey key sec).
  set (w2 := emit EvList (emit EvGet (mkWorld s tr))).
  set (b := isReferenced filter (GetName secret)
              (List.filter (fun p => String.eqb (MRNamespace p) (GetNamespace secret))
                 (parents s))).
  set (has := ContainsFinalizer secret (FinalizerName filter)).
  assert (Hb : b = true <-> referenced).
  { subst b referenced secret. destruct key as [ns nm]. apply isReferenced_spec. }
  assert (Hhas : has = true <-> marked s).
  { subst has marked secret. unfold ContainsFinalizer. rewrite existsb_eqb_In. simpl.
    split.
    - intros Hin. exists sec. split; assumption.
    - intros (o & Ho & Hin). congruence. }
  assert (Hq : quietAt (secrets s) (parents s) key (env w2) secret).
  { subst w2 secret. repeat split; try assumption. now destruct key. }
  assert (Hr : r =
    if b && negb has then
      (let* (_, err) := EnsureFinalizer (FinalizerName filter) secret in
       match err with
       | Some e => ret (mkResult false (5 * second), Some e)
       | None => ret (mkResult false 0, None)
       end) w2
    else if negb b && has then
      (let* (_, err) := DeleteFinalizer (FinalizerName filter) secret in
       match err with
       | Some e => ret (mkResult false (5 * second), Some e)
       | None => ret (mkResult false 0, None)
       end) w2
    else ((mkResult false 0, None), w2)).
  { subst r. unfold Reconcile, bind at 1, callGet. cbn [env].
    assert (Hg : Get key emptySecret s = (secret, None)).
    { simpl. unfold storeGet. now rewrite Hsec. }
    rewrite Hg. cbv beta iota. unfold bind at 1, callList.
    assert (Hl : ListManagedResources (GetNamespace secret)
                   (env (emit EvGet (mkWorld s tr)))
                 = (List.filter
                      (fun p => String.eqb (MRNamespace p) (GetNamespace secret))
                      (parents s), None)) by reflexivity.
    rewrite Hl. cbv beta iota. fold b. fold has. fold w2.
    clear Hb Hhas Hq. clearbody b has. destruct b, has; reflexivity. }
  destruct b eqn:Eb, has eqn:Eh; cbn [negb andb] in Hr.
  - (* referenced and marked: nothing to do *)
    rewrite Hr. simpl. split; [reflexivity|]. intros _.
    split; [reflexivity|].
    split; [|intros _; split; [reflexivity | simpl; now rewrite <- app_assoc]].
    split; intros _; [now apply Hb | now apply Hhas].
  - (* referenced, not marked: the marker is added *)
    pose proof (EnsureFinalizer_quiet (secrets s) (parents s) key sec
                  (FinalizerName filter) Hsec secret w2 Eh Hq) as [Hout Hok].
    cbv zeta in Hout, Hok. unfold bind in Hr.
    destruct (EnsureFinalizer (FinalizerName filter) secret w2) as [[o err] w3].
    simpl in Hout, Hok. rewrite Hr. split.
    + intros Hnf. rewrite (Hok Hnf). reflexivity.
    + destruct err as [e|]; simpl; [discriminate|]. intros _.
      destruct Hout as (Hp & Hd & o' & Hs' & Hf).
      split; [exact Hp|]. split.
      * split; intros _; [now apply Hb|].
        exists o'. rewrite Hs', lookup_insert_eq. split; [reflexivity|].
        rewrite Hf. apply in_or_app. right. now left.
      * intros Hiff. exfalso.
        assert (true = true) as Ht by reflexivity.
        apply Hb in Ht. apply Hiff in Ht. apply Hhas in Ht. discriminate.
  - (* not referenced, marked: the marker is removed *)
    pose proof (DeleteFinalizer_quiet (secrets s) (parents s) key sec
                  (FinalizerName filter) Hsec secret w2 Eh Hq) as [Hout Hok].
    cbv zeta in Hout, Hok. unfold bind in Hr.
    destruct (DeleteFinalizer (FinalizerName filter) secret w2) as [[o err] w3].
    simpl in Hout, Hok. rewrite Hr. split.
    + intros Hnf. rewrite (Hok Hnf). reflexivity.
    + destruct err as [e|]; simpl; [discriminate|]. intros _.
      destruct Hout as (Hp & Hd & o' & Hs' & Hf).
      split; [exact Hp|]. split.
      * split.
        -- intros (o'' & Ho & Hin). rewrite Hs', lookup_insert_eq in Ho.
           inversion Ho; subst o''. rewrite Hf in Hin.
           now apply not_In_filtered in Hin.
        -- intros Href. apply Hb in Href. discriminate.
      * intros Hiff. exfalso.
        assert (true = true) as Ht by reflexivity.
        apply Hhas in Ht. apply Hiff in Ht. apply Hb in Ht. discriminate.
  - (* neither: nothing to do *)
    rewrite Hr. simpl. split; [reflexivity|]. intros _.
    split; [reflexivity|].
    split; [|intros _; split; [reflexivity | simpl; now rewrite <- app_assoc]].
    split; intros Hx; [apply Hhas in Hx | apply Hb in Hx]; discriminate.
Qed.

(** The test "should add finalizer to secret if referenced by MR". *)
Lemma Reconcile_converges_witness :
  let s := testStore [] [testParent "seed" ["mr-secret"]] noFaults [] in
  let r := Reconcile emptySecret (NewClassFilter "seed") secretKey (start s) in
  snd (fst r) = None
  /\ exists o, secrets (env (snd r)) !! secretKey = Some o
               /\ In "seed-finalizer" (Finalizers o).
Proof.
  intros s r.
  assert (Hsec : secrets s !! secretKey = Some (testSecret [])) by reflexivity.
  assert (Hquiet : during s = []) by reflexivity.
  destruct (Reconcile_converges (NewClassFilter "seed") secretKey s [] (testSecret [])
              Hsec Hquiet) as [Hok Hconv].
  assert (Hnone : snd (fst r) = None) by (apply Hok; reflexivity).
  split; [exact Hnone|].
  destruct (Hconv Hnone) as (_ & Hiff & _).
  apply Hiff. exists (testParent "seed" ["mr-secret"]).
  repeat split; simpl; auto.
Defined.

(** ** The cases of the reconciler's test, run on the store *)

Example Reconcile_secret_deleted :
  Reconcile emptySecret (NewClassFilter "seed") secretKey (start emptyStore)
  = ((mkResult false 0, None), mkWorld emptyStore [EvGet]).
Proof. vm_compute. reflexivity. Qed.

Example Reconcile_no_parent_of_the_class :
  let s := testStore [] [testParent "other" ["foo"]] noFaults [] in
  Reconcile emptySecret (NewClassFilter "seed") secretKey (start s)
  = ((mkResult false 0, None), mkWorld s [EvGet; EvList]).
Proof. vm_compute. reflexivity. Qed.

Example Reconcile_finalizer_already_added :
  let s := testStore ["seed-finalizer"] [testParent "seed" ["mr-secret"]] noFaults [] in
  Reconcile emptySecret (NewClassFilter "seed") secretKey (start s)
  = ((mkResult false 0, None), mkWorld s [EvGet; EvList]).
Proof. vm_compute. reflexivity. Qed.

Example Reconcile_reference_removed :
  let s := testStore ["seed-finalizer"] [testParent "seed" []] noFaults [] in
  let r := Reconcile emptySecret (NewClassFilter "seed") secretKey (start s) in
  fst r = (mkResult false 0, None)
  /\ Finalizers <$> (secrets (env (snd r)) !! secretKey) = Some []
  /\ trace (snd r) = [EvGet; EvList; EvGet; EvPatch].
Proof. vm_compute. repeat split; reflexivity. Qed.

Example Reconcile_class_changed :
  let s := testStore ["seed-finalizer"] [testParent "other" ["mr-secret"]] noFaults [] in
  let r := Reconcile emptySecret (NewClassFilter "seed") secretKey (start s) in
  fst r = (mkResult false 0, None)
  /\ Finalizers <$> (secrets (env (snd r)) !! secretKey) = Some []
  /\ trace (snd r) = [EvGet; EvList; EvGet; EvPatch].
Proof. vm_compute. repeat split; reflexivity. Qed.

(** ** EvalGenericPredicate *)

(** X16. [EvalGenericPredicate] answers true exactly when the [Generic]
    method of every predicate accepts the object; with no predicate it
    answers true. *)
Lemma EvalGenericPredicate_all {Obj : Type} (obj : Obj) (predicates : list (Predicate Obj)) :
  EvalGenericPredicate obj predicates = true
  <-> forall p, In p predicates -> Generic p obj = true.
Proof.
  induction predicates as [|p rest IH]; simpl.
  - split; [intros _ q [] | reflexivity].
  - destruct (Generic p obj) eqn:Hp; simpl.
    + rewrite IH. split.
      * intros Hall q [<-|Hq]; [exact Hp | now apply Hall].
      * intros Hall q Hq. apply Hall. now right.
    + split; [discriminate|]. intros Hall.
      specialize (Hall p (or_introl eq_refl)). congruence.
Qed.

(** ** Fuel *)

Section Fuel.
Context {S F : Type} `{Float64 F} `{Runtime S F} {St : Type}.

(** [backoff.Steps] rounds of fuel are enough for [exponentialBackoff]
    when the counter cannot wrap around: more fuel does not change the
    result. *)
Lemma backoffLoop_fuel (backoff : Backoff F)
    (condition : St -> M S (St * (bool * option error))) (fuel extra : nat) :
  forall (i : Z) (d : Duration) (st : St) (w : World S),
    0 <= i -> BSteps backoff < maxInt -> BSteps backoff - i <= 2 * Z.of_nat fuel ->
    backoffLoop (fuel + extra) backoff i d condition st w
    = backoffLoop fuel backoff i d condition st w.
Proof.
  induction fuel as [|fuel IH]; intros i d st w Hi Hmax Hfuel.
  - rewrite !backoffLoop_exhausted by lia. reflexivity.
  - destruct (Z_lt_le_dec i (BSteps backoff)) as [Hlt|Hge].
    + destruct (condition st w) as [[st1 [ok err]] w1] eqn:Hc.
      change (Datatypes.S fuel + extra)%nat with (Datatypes.S (fuel + extra)).
      rewrite !(backoffLoop_round _ backoff i d condition st st1 w w1 ok err Hlt Hc).
      destruct (isErr err || ok); [reflexivity|].
      destruct (ctxErr (env w1)); [reflexivity|].
      rewrite incr_incr by lia. apply IH; lia.
    + rewrite !backoffLoop_exhausted by lia. reflexivity.
Qed.

Lemma exponentialBackoff_fuel (backoff : Backoff F)
    (condition : St -> M S (St * (bool * option error))) (extra : nat)
    (st : St) (w : World S) :
  BSteps backoff < maxInt ->
  backoffLoop (Z.to_nat (BSteps backoff) + extra) backoff 0 (BDuration backoff)
    condition st w
  = exponentialBackoff backoff condition st w.
Proof.
  intros Hmax. unfold exponentialBackoff. apply backoffLoop_fuel; lia.
Qed.

(** The same for the loop of the library. *)
Lemma waitLoop_fuel (backoff : Backoff F)
    (condition : St -> M S (St * (bool * option error))) (fuel extra : nat) :
  forall (steps : Z) (d : Duration) (st : St) (w : World S),
    steps <= Z.of_nat fuel ->
    waitLoop (fuel + extra) backoff steps d condition st w
    = waitLoop fuel backoff steps d condition st w.
Proof.
  induction fuel as [|fuel IH]; intros steps d st w Hfuel.
  - destruct extra; simpl; [reflexivity|].
    assert (Hs : (0 <? steps) = false) by (apply Z.ltb_ge; lia). now rewrite Hs.
  - destruct (Z_lt_le_dec 0 steps) as [Hlt|Hge].
    + destruct (condition st w) as [[st1 [ok err]] w1] eqn:Hc.
      change (Datatypes.S fuel + extra)%nat with (Datatypes.S (fuel + extra)).
      rewrite !(waitLoop_round _ backoff steps d condition st st1 w w1 ok err Hlt Hc).
      destruct (isErr err || ok); [reflexivity|].
      destruct (steps =? 1); [reflexivity|].
      apply IH; lia.
    + simpl. assert (Hs : (0 <? steps) = false) by (apply Z.ltb_ge; lia).
      now rewrite Hs.
Qed.
End Fuel.

(** The retry-then-succeed scenario of the spec: the first two writes meet a
    conflict and the third succeeds.  With the counter advancing by two a
    round, that takes a budget of five steps. *)
Example TryUpdate_retry_then_succeed :
  let s := testStore [] [] (failsFirst 2 StoreConflict) [] in
  let r := TryUpdate (testBackoff 5) (testSecret []) (setData "x") (start s) in
  snd (fst r) = None
  /\ Data <$> (secrets (env (snd r)) !! secretKey) = Some "x"
  /\ trace (snd r)
     = [EvGet; EvUpdate; EvSleep 100; EvGet; EvUpdate; EvSleep 200; EvGet; EvUpdate].
Proof. vm_compute. repeat split; reflexivity. Qed.

(** * More of utils.go *)

(** ** The calls the functions can make, whatever the client does *)

Lemma calls_nil (q : Event -> bool) : calls q [] = 0%nat.
Proof. reflexivity. Qed.

Lemma calls_one (q : Event -> bool) (e : Event) :
  calls q [e] = (if q e then 1 else 0)%nat.
Proof. unfold calls. simpl. now destruct (q e). Qed.

Lemma emits_ret {S A : Type} (a : A) (allowed q : Event -> bool) :
  emitsAtMost (ret (S:=S) a) allowed q 0.
Proof.
  intros w. exists []. simpl. rewrite app_nil_r. repeat split. rewrite calls_nil. lia.
Qed.

Lemma emits_weaken {S A : Type} (m : M S A) (allowed q : Event -> bool) (n k : nat) :
  (n <= k)%nat -> emitsAtMost m allowed q n -> emitsAtMost m allowed q k.
Proof.
  intros Hnk Hm w. destruct (Hm w) as (ext & Ht & Ha & Hq).
  exists ext. repeat split; [exact Ht | exact Ha | lia].
Qed.

Lemma emits_bind {S A B : Type} (m : M S A) (f : A -> M S B)
    (allowed q : Event -> bool) (n k : nat) :
  emitsAtMost m allowed q n -> (forall a, emitsAtMost (f a) allowed q k) ->
  emitsAtMost (bind m f) allowed q (n + k).
Proof.
  intros Hm Hf w. unfold bind.
  destruct (Hm w) as (ext1 & Ht1 & Ha1 & Hq1).
  destruct (m w) as [a w1]. simpl in Ht1.
  destruct (Hf a w1) as (ext2 & Ht2 & Ha2 & Hq2).
  exists (ext1 ++ ext2)%list. split; [|split].
  - rewrite Ht2, Ht1. now rewrite app_assoc.
  - rewrite forallb_app, Ha1, Ha2. reflexivity.
  - rewrite calls_app. lia.
Qed.

Lemma emits_event {S A : Type} (m : M S A) (e : Event) (allowed q : Event -> bool) :
  (forall w, trace (snd (m w)) = (trace w ++ [e])%list) ->
  allowed e = true ->
  emitsAtMost m allowed q (if q e then 1 else 0).
Proof.
  intros Hm Ha w. exists [e]. split; [apply Hm|]. split.
  - simpl. now rewrite Ha.
  - rewrite calls_one. lia.
Qed.

Section CallsEmit.
Context {S F Obj : Type} `{Float64 F} `{Runtime S F} `{Client S Obj}.
Variables allowed q : Event -> bool.

Lemma emits_callGet (key : ObjectKey) (obj : Obj) :
  allowed EvGet = true ->
  emitsAtMost (callGet key obj) allowed q (if q EvGet then 1 else 0).
Proof. intros Ha. now apply emits_event. Qed.

Lemma emits_callUpdate (obj : Obj) :
  allowed EvUpdate = true ->
  emitsAtMost (callUpdate obj) allowed q (if q EvUpdate then 1 else 0).
Proof. intros Ha. now apply emits_event. Qed.

Lemma emits_callStatusUpdate (obj : Obj) :
  allowed EvStatusUpdate = true ->
  emitsAtMost (callStatusUpdate obj) allowed q (if q EvStatusUpdate then 1 else 0).
Proof. intros Ha. now apply emits_event. Qed.

Lemma emits_callPatch (obj base : Obj) :
  allowed EvPatch = true ->
  emitsAtMost (callPatch obj base) allowed q (if q EvPatch then 1 else 0).
Proof. intros Ha. now apply emits_event. Qed.

Lemma emits_callCreate (obj : Obj) :
  allowed EvCreate = true ->
  emitsAtMost (callCreate obj) allowed q (if q EvCreate then 1 else 0).
Proof. intros Ha. now apply emits_event. Qed.
End CallsEmit.

Section LoopsEmit.
Context {S F : Type} `{Float64 F} `{Runtime S F} {St : Type}.
Variable backoff : Backoff F.
Variable condition : St -> M S (St * (bool * option error)).
Variables allowed q : Event -> bool.
Variable c : nat.
Variable qs : bool.
Hypothesis sleep_allowed : forall d, allowed (EvSleep d) = true.
Hypothesis sleep_kind : forall d, q (EvSleep d) = qs.
Hypothesis condition_emits : forall st, emitsAtMost (condition st) allowed q c.

Let perRound : nat := (c + (if qs then 1 else 0))%nat.

(** The loop of [exponentialBackoff] makes at most one round for every two
    steps of the budget, whatever the condition answers. *)
Lemma backoffLoop_emits (fuel : nat) :
  forall (i : Z) (d : Duration) (st : St),
    0 <= i -> BSteps backoff < maxInt ->
    emitsAtMost (backoffLoop fuel backoff i d condition st) allowed q
      (roundsFrom (BSteps backoff) i * perRound).
Proof.
  induction fuel as [|fuel IH]; intros i d st Hi Hmax w.
  - exists []. simpl. rewrite app_nil_r. repeat split. rewrite calls_nil. lia.
  - destruct (Z_lt_le_dec i (BSteps backoff)) as [Hlt|Hge].
    2: { rewrite backoffLoop_exhausted by lia.
         exists []. simpl. rewrite app_nil_r. repeat split. rewrite calls_nil. lia. }
    destruct (condition_emits st w) as (ext1 & Ht1 & Ha1 & Hq1).
    destruct (condition st w) as [[st1 [ok err]] w1] eqn:Hc. simpl in Ht1.
    rewrite (backoffLoop_round fuel backoff i d condition st st1 w w1 ok err Hlt Hc).
    unfold roundsFrom. rewrite (rounds_step _ _ Hlt).
    destruct (isErr err || ok).
    { exists ext1. repeat split; [exact Ht1 | exact Ha1 |]. subst perRound. simpl. lia. }
    destruct (ctxErr (env w1)).
    { exists ext1. repeat split; [exact Ht1 | exact Ha1 |]. subst perRound. simpl. lia. }
    rewrite sleepAdjusted_eq, incr_incr by lia. cbn [snd].
    set (e := EvSleep (fst (adjustedDuration backoff d (env w1)))).
    destruct (IH (i + 2) (mulDuration d (BFactor backoff)) st1 ltac:(lia) Hmax
                (mkWorld (afterSleep backoff d (env w1)) (trace w1 ++ [e])))
      as (ext2 & Ht2 & Ha2 & Hq2).
    exists (ext1 ++ [e] ++ ext2)%list. split; [|split].
    + rewrite Ht2. cbn [trace]. rewrite Ht1. now rewrite <- !app_assoc.
    + rewrite !forallb_app, Ha1, Ha2. subst e. simpl. now rewrite sleep_allowed.
    + rewrite !calls_app, calls_one. subst e. rewrite sleep_kind.
      unfold roundsFrom in Hq2. subst perRound. simpl in *.
      destruct qs; lia.
Qed.

(** The loop of the library makes at most [steps] rounds, with a sleep
    between two rounds. *)
Lemma waitLoop_emits (fuel : nat) :
  forall (steps : Z) (d : Duration) (st : St),
    emitsAtMost (waitLoop fuel backoff steps d condition st) allowed q
      (Z.to_nat steps * c + (if qs then Z.to_nat (steps - 1) else 0)).
Proof.
  induction fuel as [|fuel IH]; intros steps d st w.
  - exists []. simpl. rewrite app_nil_r. repeat split. rewrite calls_nil.
    apply Nat.le_0_l.
  - destruct (Z_lt_le_dec 0 steps) as [Hlt|Hge].
    2: { simpl. assert (Hs : (0 <? steps) = false) by (apply Z.ltb_ge; lia).
         rewrite Hs. exists []. simpl. rewrite app_nil_r. repeat split.
         rewrite calls_nil. apply Nat.le_0_l. }
    destruct (condition_emits st w) as (ext1 & Ht1 & Ha1 & Hq1).
    destruct (condition st w) as [[st1 [ok err]] w1] eqn:Hc. simpl in Ht1.
    rewrite (waitLoop_round fuel backoff steps d condition st st1 w w1 ok err Hlt Hc).
    assert (Hsteps : Z.to_nat steps = Datatypes.S (Z.to_nat (steps - 1))) by lia.
    destruct (isErr err || ok).
    { exists ext1. repeat split; [exact Ht1 | exact Ha1 |]. rewrite Hsteps.
      destruct qs; cbn [Nat.mul]; nia. }
    destruct (Z.eqb_spec steps 1) as [H1|H1].
    { exists ext1. repeat split; [exact Ht1 | exact Ha1 |]. rewrite Hsteps.
      destruct qs; cbn [Nat.mul]; nia. }
    rewrite sleepAdjusted_eq. cbn [snd].
    set (e := EvSleep (fst (adjustedDuration backoff d (env w1)))).
    destruct (IH (steps - 1)
                (if neZero (BFactor backoff) then mulDuration d (BFactor backoff) else d)
                st1 (mkWorld (afterSleep backoff d (env w1)) (trace w1 ++ [e])))
      as (ext2 & Ht2 & Ha2 & Hq2).
    exists (ext1 ++ [e] ++ ext2)%list. split; [|split].
    + rewrite Ht2. cbn [trace]. rewrite Ht1. now rewrite <- !app_assoc.
    + rewrite !forallb_app, Ha1, Ha2. subst e. simpl. now rewrite sleep_allowed.
    + rewrite !calls_app, calls_one. subst e. rewrite sleep_kind.
      assert (Hs2 : Z.to_nat (steps - 1) = Datatypes.S (Z.to_nat (steps - 1 - 1))) by lia.
      rewrite Hsteps. destruct qs; cbn [Nat.mul]; nia.
Qed.
End LoopsEmit.

Section TryUpdateCalls.
Context {S F Obj : Type} `{Float64 F} `{Runtime S F} `{Object Obj} `{Client S Obj}.

Lemma tryUpdateAttempt_emits (key : ObjectKey)
    (updateFunc : Obj -> M S (Obj * option error))
    (transform : Obj -> Obj * option error) (allowed q : Event -> bool) (cu : nat) :
  allowed EvGet = true ->
  (forall o, emitsAtMost (updateFunc o) allowed q cu) ->
  forall obj, emitsAtMost (tryUpdateAttempt key updateFunc transform obj) allowed q
                ((if q EvGet then 1 else 0) + cu).
Proof.
  intros Ha Hu obj. unfold tryUpdateAttempt.
  apply emits_bind; [now apply emits_callGet|].
  intros [o err]. destruct err as [e|].
  { apply (emits_weaken _ _ _ 0); [lia | apply emits_ret]. }
  destruct (transform o) as [o2 [e|]].
  { apply (emits_weaken _ _ _ 0); [lia | apply emits_ret]. }
  destruct (DeepEqual o2 o).
  { apply (emits_weaken _ _ _ 0); [lia | apply emits_ret]. }
  apply (emits_weaken _ _ _ (cu + 0)); [lia|].
  apply emits_bind; [apply Hu|].
  intros [o3 [e|]]; [destruct (IsConflict e)|]; apply emits_ret.
Qed.

Lemma tryUpdate_emits (backoff : Backoff F) (obj : Obj)
    (updateFunc : Obj -> M S (Obj * option error))
    (transform : Obj -> Obj * option error) (allowed q : Event -> bool) (cu : nat)
    (qs : bool) :
  BSteps backoff < maxInt ->
  allowed EvGet = true -> (forall d, allowed (EvSleep d) = true) ->
  (forall d, q (EvSleep d) = qs) ->
  (forall o, emitsAtMost (updateFunc o) allowed q cu) ->
  emitsAtMost (tryUpdate backoff obj updateFunc transform) allowed q
    (roundsFrom (BSteps backoff) 0
     * ((if q EvGet then 1 else 0) + cu + (if qs then 1 else 0))).
Proof.
  intros Hmax Hg Hs Hqs Hu. unfold tryUpdate, exponentialBackoff.
  apply (backoffLoop_emits backoff _ allowed q _ qs Hs Hqs); [|lia|exact Hmax].
  intros st. now apply tryUpdateAttempt_emits.
Qed.

(** X2. Whatever the client and the transform do, [TryUpdate] only fetches,
    updates and sleeps, and it does each of them at most once for every two
    steps of the budget: no other call reaches the client, and no round is
    made beyond the budget. *)
Theorem TryUpdate_calls_bounded (backoff : Backoff F) (obj : Obj)
    (transform : Obj -> Obj * option error) (w : World S) :
  BSteps backoff < maxInt ->
  exists ext,
    trace (snd (TryUpdate backoff obj transform w)) = (trace w ++ ext)%list
    /\ forallb updateCalls ext = true
    /\ (calls isGet ext <= roundsFrom (BSteps backoff) 0)%nat
    /\ (calls isEvUpdate ext <= roundsFrom (BSteps backoff) 0)%nat
    /\ (calls isSleep ext <= roundsFrom (BSteps backoff) 0)%nat.
Proof.
  intros Hmax. unfold TryUpdate.
  destruct (tryUpdate_emits backoff obj callUpdate transform updateCalls isGet 0 false
              Hmax eq_refl (fun _ => eq_refl) (fun _ => eq_refl)
              (fun o => emits_callUpdate updateCalls isGet o eq_refl) w)
    as (ext & Ht & Ha & Hg).
  destruct (tryUpdate_emits backoff obj callUpdate transform updateCalls isEvUpdate 1 false
              Hmax eq_refl (fun _ => eq_refl) (fun _ => eq_refl)
              (fun o => emits_callUpdate updateCalls isEvUpdate o eq_refl) w)
    as (ext2 & Ht2 & _ & Hu).
  destruct (tryUpdate_emits backoff obj callUpdate transform updateCalls isSleep 0 true
              Hmax eq_refl (fun _ => eq_refl) (fun _ => eq_refl)
              (fun o => emits_callUpdate updateCalls isSleep o eq_refl) w)
    as (ext3 & Ht3 & _ & Hs).
  rewrite Ht in Ht2, Ht3. apply app_inv_head in Ht2, Ht3. subst ext2 ext3.
  exists ext. simpl in Hg, Hu, Hs. repeat split; try assumption; lia.
Qed.

(** X3. [TryUpdateStatus] only fetches, updates the status and sleeps, within
    the same bounds: it never calls [Update], [Patch] or [Create]. *)
Theorem TryUpdateStatus_calls_bounded (backoff : Backoff F) (obj : Obj)
    (transform : Obj -> Obj * option error) (w : World S) :
  BSteps backoff < maxInt ->
  exists ext,
    trace (snd (TryUpdateStatus backoff obj transform w)) = (trace w ++ ext)%list
    /\ forallb statusUpdateCalls ext = true
    /\ (calls isGet ext <= roundsFrom (BSteps backoff) 0)%nat
    /\ (calls isEvStatusUpdate ext <= roundsFrom (BSteps backoff) 0)%nat
    /\ (calls isSleep ext <= roundsFrom (BSteps backoff) 0)%nat.
Proof.
  intros Hmax. unfold TryUpdateStatus.
  destruct (tryUpdate_emits backoff obj callStatusUpdate transform statusUpdateCalls
              isGet 0 false Hmax eq_refl (fun _ => eq_refl) (fun _ => eq_refl)
              (fun o => emits_callStatusUpdate statusUpdateCalls isGet o eq_refl) w)
    as (ext & Ht & Ha & Hg).
  destruct (tryUpdate_emits backoff obj callStatusUpdate transform statusUpdateCalls
              isEvStatusUpdate 1 false Hmax eq_refl (fun _ => eq_refl) (fun _ => eq_refl)
              (fun o => emits_callStatusUpdate statusUpdateCalls isEvStatusUpdate o eq_refl)
              w)
    as (ext2 & Ht2 & _ & Hu).
  destruct (tryUpdate_emits backoff obj callStatusUpdate transform statusUpdateCalls
              isSleep 0 true Hmax eq_refl (fun _ => eq_refl) (fun _ => eq_refl)
              (fun o => emits_callStatusUpdate statusUpdateCalls isSleep o eq_refl) w)
    as (ext3 & Ht3 & _ & Hs).
  rewrite Ht in Ht2, Ht3. apply app_inv_head in Ht2, Ht3. subst ext2 ext3.
  exists ext. simpl in Hg, Hu, Hs. repeat split; try assumption; lia.
Qed.

(** X1. With a budget of no steps (zero or negative), [tryUpdate] gives up
    at once with [wait.ErrWaitTimeout]: the object is not fetched, the
    transform is not run and nothing is written. *)
Theorem tryUpdate_without_steps (backoff : Backoff F) (obj : Obj)
    (updateFunc : Obj -> M S (Obj * option error))
    (transform : Obj -> Obj * option error) (w : World S) :
  BSteps backoff <= 0 ->
  tryUpdate backoff obj updateFunc transform w = ((obj, Some ErrWaitTimeout), w).
Proof.
  intros Hs. unfold tryUpdate, exponentialBackoff. now apply backoffLoop_exhausted.
Qed.
End TryUpdateCalls.

Lemma TryUpdate_calls_witness :
  exists ext,
    trace (snd (TryUpdate (testBackoff 5) (testSecret []) (setData "x")
                  (start (testStore [] [] (failsFirst 1 StoreConflict) []))))
    = ([] ++ ext)%list
    /\ forallb updateCalls ext = true
    /\ (calls isGet ext <= 3)%nat /\ (calls isEvUpdate ext <= 3)%nat
    /\ (calls isSleep ext <= 3)%nat.
Proof.
  apply (TryUpdate_calls_bounded (testBackoff 5) (testSecret []) (setData "x")
           (start (testStore [] [] (failsFirst 1 StoreConflict) []))).
  unfold maxInt. simpl. lia.
Defined.

Lemma TryUpdateStatus_calls_witness :
  exists ext,
    trace (snd (TryUpdateStatus (testBackoff 5) (testSecret []) (setData "x")
                  (start (testStore [] [] (failsFirst 1 StoreConflict) []))))
    = ([] ++ ext)%list
    /\ forallb statusUpdateCalls ext = true
    /\ (calls isGet ext <= 3)%nat /\ (calls isEvStatusUpdate ext <= 3)%nat
    /\ (calls isSleep ext <= 3)%nat.
Proof.
  apply (TryUpdateStatus_calls_bounded (testBackoff 5) (testSecret []) (setData "x")
           (start (testStore [] [] (failsFirst 1 StoreConflict) []))).
  unfold maxInt. simpl. lia.
Defined.

Lemma tryUpdate_without_steps_witness :
  TryUpdate (testBackoff 0) (testSecret []) (setData "x")
    (start (testStore [] [] noFaults []))
  = ((testSecret [], Some ErrWaitTimeout), start (testStore [] [] noFaults [])).
Proof.
  apply (tryUpdate_without_steps (testBackoff 0) (testSecret []) callUpdate (setData "x")).
  simpl. lia.
Defined.

Section FinalizerCalls.
Context {S F Obj : Type} `{Float64 F} `{Runtime S F} `{Object Obj} `{Client S Obj}.

Lemma ensureFinalizerAttempt_emits (finalizerName : string) (q : Event -> bool) (obj : Obj) :
  emitsAtMost (ensureFinalizerAttempt finalizerName obj) patchCalls q
    ((if q EvGet then 1 else 0) + (if q EvPatch then 1 else 0)).
Proof.
  unfold ensureFinalizerAttempt.
  apply emits_bind; [now apply emits_callGet|].
  intros [o [e|]].
  { apply (emits_weaken _ _ _ 0); [lia | apply emits_ret]. }
  destruct (ContainsFinalizer o finalizerName).
  { apply (emits_weaken _ _ _ 0); [lia | apply emits_ret]. }
  now apply emits_callPatch.
Qed.

Lemma deleteFinalizerAttempt_emits (finalizerName : string) (q : Event -> bool) (obj : Obj) :
  emitsAtMost (deleteFinalizerAttempt finalizerName obj) patchCalls q
    ((if q EvGet then 1 else 0) + (if q EvPatch then 1 else 0)).
Proof.
  unfold deleteFinalizerAttempt.
  apply emits_bind; [now apply emits_callGet|].
  intros [o err]. destruct (IgnoreNotFound err).
  { apply (emits_weaken _ _ _ 0); [lia | apply emits_ret]. }
  destruct (negb (ContainsFinalizer o finalizerName)).
  { apply (emits_weaken _ _ _ 0); [lia | apply emits_ret]. }
  now apply emits_callPatch.
Qed.

Lemma RetryOnConflict_emits {St : Type} (fn : St -> M S (St * option error))
    (allowed q : Event -> bool) (c : nat) (qs : bool) (st : St) :
  (forall d, allowed (EvSleep d) = true) -> (forall d, q (EvSleep d) = qs) ->
  (forall st, emitsAtMost (fn st) allowed q c) ->
  emitsAtMost (RetryOnConflict DefaultRetry fn st) allowed q
    (5 * c + (if qs then 4 else 0)).
Proof.
  intros Hs Hqs Hfn. unfold RetryOnConflict, OnError.
  apply (emits_weaken _ _ _ (5 * c + (if qs then 4 else 0) + 0)); [lia|].
  apply emits_bind.
  - unfold ExponentialBackoff.
    apply (waitLoop_emits DefaultRetry _ allowed q c qs Hs Hqs).
    intros [st0 last]. unfold onErrorCondition.
    apply (emits_weaken _ _ _ (c + 0)); [lia|].
    apply emits_bind; [apply Hfn|].
    intros [st1 [e|]]; [destruct (IsConflict e)|]; apply emits_ret.
  - intros [[st1 last] err]. apply emits_ret.
Qed.

Lemma retried_calls_bounded (fn : Obj -> M S (Obj * option error)) (obj : Obj)
    (w : World S) :
  (forall q st, emitsAtMost (fn st) patchCalls q
                  ((if q EvGet then 1 else 0) + (if q EvPatch then 1 else 0))) ->
  exists ext,
    trace (snd (RetryOnConflict DefaultRetry fn obj w)) = (trace w ++ ext)%list
    /\ forallb patchCalls ext = true
    /\ (calls isGet ext <= 5)%nat /\ (calls isPatch ext <= 5)%nat
    /\ (calls isSleep ext <= 4)%nat.
Proof.
  intros Hfn.
  destruct (RetryOnConflict_emits fn patchCalls isGet _ false obj
              (fun _ => eq_refl) (fun _ => eq_refl) (Hfn isGet) w)
    as (ext & Ht & Ha & Hg).
  destruct (RetryOnConflict_emits fn patchCalls isPatch _ false obj
              (fun _ => eq_refl) (fun _ => eq_refl) (Hfn isPatch) w)
    as (ext2 & Ht2 & _ & Hp).
  destruct (RetryOnConflict_emits fn patchCalls isSleep _ true obj
              (fun _ => eq_refl) (fun _ => eq_refl) (Hfn isSleep) w)
    as (ext3 & Ht3 & _ & Hs).
  rewrite Ht in Ht2, Ht3. apply app_inv_head in Ht2, Ht3. subst ext2 ext3.
  exists ext. simpl in Hg, Hp, Hs. repeat split; try assumption; lia.
Qed.

(** X6. Whatever the client does, [EnsureFinalizer] and [DeleteFinalizer]
    only fetch, patch and sleep: at most five fetches, five patches and four
    sleeps, and never an [Update], a [Create] or a status update. *)
Theorem finalizer_calls_bounded (finalizerName : string) (obj : Obj) (w : World S) :
  (exists ext,
     trace (snd (EnsureFinalizer finalizerName obj w)) = (trace w ++ ext)%list
     /\ forallb patchCalls ext = true
     /\ (calls isGet ext <= 5)%nat /\ (calls isPatch ext <= 5)%nat
     /\ (calls isSleep ext <= 4)%nat)
  /\ (exists ext,
        trace (snd (DeleteFinalizer finalizerName obj w)) = (trace w ++ ext)%list
        /\ forallb patchCalls ext = true
        /\ (calls isGet ext <= 5)%nat /\ (calls isPatch ext <= 5)%nat
        /\ (calls isSleep ext <= 4)%nat).
Proof.
  split.
  - apply retried_calls_bounded. intros q st. apply ensureFinalizerAttempt_emits.
  - apply retried_calls_bounded. intros q st. apply deleteFinalizerAttempt_emits.
Qed.

Lemma RetryOnConflict_first_error {St : Type} (fn : St -> M S (St * option error))
    (st st' : St) (e : error) (w w1 : World S) :
  fn st w = ((st', Some e), w1) ->
  IsConflict e = false -> isWaitTimeout (Some e) = false ->
  RetryOnConflict DefaultRetry fn st w = ((st', Some e), w1).
Proof.
  intros Hf Hc Hw.
  pose proof (onErrorCondition_eq IsConflict fn st st' None (Some e) w w1 Hf) as Hcnd.
  cbv beta iota in Hcnd. rewrite Hc in Hcnd.
  unfold RetryOnConflict, OnError, ExponentialBackoff, bind.
  change (Z.to_nat (BSteps (DefaultRetry (F:=F)))) with 5%nat.
  rewrite (waitLoop_round 4 DefaultRetry 5 _ _ _ _ _ _ _ _ ltac:(lia) Hcnd).
  cbn [isErr orb]. cbv beta iota. now rewrite Hw.
Qed.

(** X7. Nothing to do, nothing written.  When the fetched object already
    carries the finalizer, [EnsureFinalizer] returns success after that one
    fetch; when the object [DeleteFinalizer] is left with after the fetch
    (found, or not found and ignored) does not carry it, [DeleteFinalizer]
    does the same.  Neither patches. *)
Theorem finalizer_nothing_to_do (finalizerName : string) (obj o1 : Obj)
    (err : option error) (w : World S) :
  Get (ObjectKeyFromObject obj) obj (env w) = (o1, err) ->
  (err = None -> ContainsFinalizer o1 finalizerName = true ->
   EnsureFinalizer finalizerName obj w = ((o1, None), emit EvGet w))
  /\ (IgnoreNotFound err = None -> ContainsFinalizer o1 finalizerName = false ->
      DeleteFinalizer finalizerName obj w = ((o1, None), emit EvGet w)).
Proof.
  intros Hg. split.
  - intros -> Hc. unfold EnsureFinalizer.
    apply RetryOnConflict_first_success.
    unfold ensureFinalizerAttempt, bind, callGet. rewrite Hg. cbv beta iota.
    now rewrite Hc.
  - intros Hi Hc. unfold DeleteFinalizer.
    apply RetryOnConflict_first_success.
    unfold deleteFinalizerAttempt, bind, callGet. rewrite Hg. cbv beta iota.
    rewrite Hi, Hc. reflexivity.
Qed.

(** X8. Errors of the fetch.  [EnsureFinalizer] returns any error of the
    fetch that is no conflict, not-found included, and [DeleteFinalizer] any
    such error but not-found; in both cases after that one fetch, without a
    patch and without a retry.  (The library keeps [wait.ErrWaitTimeout] for
    itself, hence the last hypothesis.) *)
Theorem finalizer_fetch_error (finalizerName : string) (obj o1 : Obj) (e : error)
    (w : World S) :
  Get (ObjectKeyFromObject obj) obj (env w) = (o1, Some e) ->
  IsConflict e = false -> isWaitTimeout (Some e) = false ->
  EnsureFinalizer finalizerName obj w = ((o1, Some e), emit EvGet w)
  /\ (IsNotFound e = false ->
      DeleteFinalizer finalizerName obj w = ((o1, Some e), emit EvGet w)).
Proof.
  intros Hg Hc Hw. split.
  - unfold EnsureFinalizer. apply RetryOnConflict_first_error; [|exact Hc|exact Hw].
    unfold ensureFinalizerAttempt, bind, callGet. now rewrite Hg.
  - intros Hn. unfold DeleteFinalizer.
    apply RetryOnConflict_first_error; [|exact Hc|exact Hw].
    unfold deleteFinalizerAttempt, bind, callGet. rewrite Hg. cbv beta iota.
    cbn [IgnoreNotFound]. now rewrite Hn.
Qed.
End FinalizerCalls.

Lemma finalizer_nothing_to_do_witness :
  EnsureFinalizer "seed-finalizer" (testSecret [])
    (start (testStore ["seed-finalizer"] [] noFaults []))
  = ((testSecret ["seed-finalizer"], None),
     emit EvGet (start (testStore ["seed-finalizer"] [] noFaults [])))
  /\ DeleteFinalizer "seed-finalizer" (testSecret []) (start emptyStore)
     = ((testSecret [], None), emit EvGet (start emptyStore)).
Proof.
  split.
  - assert (Hg : Get (ObjectKeyFromObject (testSecret [])) (testSecret [])
                   (env (start (testStore ["seed-finalizer"] [] noFaults [])))
                 = (testSecret ["seed-finalizer"], None)) by reflexivity.
    apply (proj1 (finalizer_nothing_to_do "seed-finalizer" _ _ _ _ Hg)); reflexivity.
  - assert (Hg : Get (ObjectKeyFromObject (testSecret [])) (testSecret [])
                   (env (start emptyStore)) = (testSecret [], Some NotFound))
      by reflexivity.
    apply (proj2 (finalizer_nothing_to_do "seed-finalizer" _ _ _ _ Hg)); reflexivity.
Defined.

Lemma finalizer_fetch_error_witness :
  let unreachable := mkWorld (mkMock (inr fakeErr) (inr fakeErr) (Some fakeErr)) [] in
  EnsureFinalizer "seed-finalizer" (testSecret []) unreachable
  = ((testSecret [], Some fakeErr), emit EvGet unreachable)
  /\ DeleteFinalizer "seed-finalizer" (testSecret ["seed-finalizer"]) unreachable
     = ((testSecret ["seed-finalizer"], Some fakeErr), emit EvGet unreachable).
Proof.
  intros unreachable.
  assert (Hg : forall o : Secret,
             Get (ObjectKeyFromObject o) o (env unreachable) = (o, Some fakeErr))
    by reflexivity.
  split.
  - apply (proj1 (finalizer_fetch_error "seed-finalizer" _ _ _ _ (Hg (testSecret []))
                    eq_refl eq_refl)).
  - apply (proj2 (finalizer_fetch_error "seed-finalizer" _ _ _ _
                    (Hg (testSecret ["seed-finalizer"])) eq_refl eq_refl) eq_refl).
Defined.

(** ** The backoff schedule *)

Section Schedule.
Context {S F : Type} `{Float64 F} `{Runtime S F} {St : Type}.
Variable backoff : Backoff F.
Variable condition : St -> M S (St * (bool * option error)).
Variable Inv : S -> St -> Prop.
Hypothesis no_jitter : gtZero (BJitter backoff) = false.
Hypothesis cond_retry : forall st w, Inv (env w) st ->
  exists st' w', condition st w = ((st', (false, None)), w')
                 /\ Inv (env w') st'
                 /\ List.filter isSleep (trace w') = List.filter isSleep (trace w).
Hypothesis ctx_live : forall s st, Inv s st -> ctxErr s = None.
Hypothesis sleep_inv : forall d s st, Inv s st -> Inv (afterSleep backoff d s) st.

Lemma backoffLoop_schedule (fuel : nat) :
  forall (i : Z) (d : Duration) (st : St) (w : World S),
    Inv (env w) st -> 0 <= i -> BSteps backoff < maxInt ->
    BSteps backoff - i <= 2 * Z.of_nat fuel ->
    List.filter isSleep (trace (snd (backoffLoop fuel backoff i d condition st w)))
    = (List.filter isSleep (trace w)
       ++ sleepSchedule (BFactor backoff) (roundsFrom (BSteps backoff) i) d)%list.
Proof.
  induction fuel as [|fuel IH]; intros i d st w HI Hi Hmax Hfuel.
  - unfold roundsFrom. rewrite rounds_none by lia. simpl. now rewrite app_nil_r.
  - destruct (Z_lt_le_dec i (BSteps backoff)) as [Hlt|Hge].
    + destruct (cond_retry st w HI) as (st1 & w1 & Hc & HI1 & Hs1).
      rewrite (backoffLoop_round fuel backoff i d condition st st1 w w1 false None Hlt Hc).
      cbn [isErr orb]. rewrite (ctx_live _ _ HI1).
      rewrite incr_incr by lia. rewrite sleepAdjusted_eq. cbn [snd].
      rewrite IH; [ | apply sleep_inv, HI1 | lia | exact Hmax | lia].
      cbn [trace]. unfold roundsFrom. rewrite (rounds_step _ _ Hlt).
      unfold adjustedDuration. rewrite no_jitter. cbn [fst sleepSchedule].
      rewrite List.filter_app, Hs1. cbn [List.filter isSleep].
      now rewrite <- app_assoc.
    + rewrite backoffLoop_exhausted by lia. unfold roundsFrom.
      rewrite rounds_none by lia. simpl. now rewrite app_nil_r.
Qed.
End Schedule.

Section ScheduleClaim.
Context {S F Obj : Type} `{Float64 F} `{Runtime S F} `{Object Obj} `{Client S Obj}.

(** X4. The schedule of the sleeps.  When every write meets a conflict and
    the backoff has no jitter, [TryUpdate] sleeps once after every round,
    the last one included: first for the initial duration, then each time
    for the duration before multiplied by the factor. *)
Theorem TryUpdate_backoff_schedule (backoff : Backoff F)
    (transform : Obj -> Obj * option error) (Inv : S -> Obj -> Prop)
    (obj : Obj) (w : World S) :
  AlwaysConflicts backoff (ObjectKeyFromObject obj) transform Inv ->
  Inv (env w) obj ->
  gtZero (BJitter backoff) = false ->
  0 <= BSteps backoff < maxInt ->
  List.filter isSleep (trace (snd (TryUpdate backoff obj transform w)))
  = (List.filter isSleep (trace w)
     ++ sleepSchedule (BFactor backoff) (roundsFrom (BSteps backoff) 0)
          (BDuration backoff))%list.
Proof.
  intros HA HI Hj Hsteps. unfold TryUpdate, tryUpdate, exponentialBackoff.
  pose proof HA as (Hround & Hctx & Hsleep).
  apply (backoffLoop_schedule backoff _ Inv Hj); try assumption; try lia.
  intros st w0 HI0.
  destruct (Hround _ _ HI0) as (o1 & o2 & o3 & e & s' & Hg & Ht & He & Hu & Hc & HI').
  exists o3, (emit EvUpdate (mkWorld s' (trace w0 ++ [EvGet]))).
  split; [|split].
  - pose proof (attempt_write (ObjectKeyFromObject obj) callUpdate transform st o1 o2 o3
                  (Some e) w0 (emit EvUpdate (mkWorld s' (trace w0 ++ [EvGet])))
                  Hg Ht He) as Ha.
    cbv beta iota in Ha. rewrite Hc in Ha. apply Ha.
    unfold callUpdate, emit. simpl. now rewrite Hu.
  - exact HI'.
  - unfold emit. cbn [trace]. rewrite !List.filter_app. simpl. now rewrite !app_nil_r.
Qed.
End ScheduleClaim.

Lemma TryUpdate_backoff_schedule_witness :
  List.filter isSleep
    (trace (snd (TryUpdate (testBackoff 5) (testSecret []) (setData "x")
                   (start (testStore [] [] (alwaysFails StoreConflict) [])))))
  = [EvSleep 100; EvSleep 200; EvSleep 400].
Proof.
  etransitivity.
  - apply (TryUpdate_backoff_schedule (testBackoff 5) (setData "x") (contended [])
             (testSecret []) (start (testStore [] [] (alwaysFails StoreConflict) []))).
    + apply contended_always_conflicts.
    + repeat split; reflexivity.
    + reflexivity.
    + unfold maxInt; simpl; lia.
  - reflexivity.
Defined.

(** ** TryUpdate on the object store *)

Lemma store_get_found (key : ObjectKey) (o sec : Secret) (s : Store) :
  secrets s !! key = Some sec -> Get key o s = (withKey key sec, None).
Proof. intros Hs. simpl. unfold storeGet. now rewrite Hs. Qed.

Lemma store_update_fault (o : Secret) (f : StoreError) (s : Store) :
  faults s (writes s) = Some f ->
  Update o s = ((o, Some (storeError f)), countWrite s).
Proof. intros Hf. simpl. unfold storeUpdate, storeWrite. now rewrite Hf. Qed.

Lemma withKey_own (o : Secret) : withKey (ObjectKeyFromObject o) o = o.
Proof. now destruct o. Qed.

Lemma store_update_ok (o sec : Secret) (s : Store) :
  faults s (writes s) = None ->
  secrets s !! ObjectKeyFromObject o = Some sec ->
  ResourceVersion o = ResourceVersion sec ->
  Update o s = ((bump o, None),
                setSecrets (<[ObjectKeyFromObject o := bump o]> (secrets s)) (countWrite s)).
Proof.
  intros Hf Hs Hrv. simpl. unfold storeUpdate, storeWrite.
  rewrite Hf, Hs, Hrv, N.eqb_refl.
  change (ObjectKeyFromObject o) with (ObjectKeyFromObject (bump o)).
  now rewrite withKey_own.
Qed.

Lemma store_quiet_sleep (backoff : Backoff Q) (d : Duration) (s : Store) :
  during s = [] -> afterSleep backoff d s = s.
Proof.
  intros Hd. unfold afterSleep, adjustedDuration.
  destruct (gtZero (BJitter backoff)); simpl; unfold storeSleep; now rewrite Hd.
Qed.

Section RetryThenSucceed.
Variable backoff : Backoff Q.
Variable transform : Secret -> Secret * option error.
Variable key : ObjectKey.
Variables sec o2 : Secret.
Hypothesis transform_ok : transform (withKey key sec) = (o2, None).
Hypothesis transform_changes : DeepEqual o2 (withKey key sec) = false.
Hypothesis transform_keeps_key : ObjectKeyFromObject o2 = key.
Hypothesis transform_keeps_token : ResourceVersion o2 = ResourceVersion sec.

Lemma tryUpdate_after_conflicts (k : nat) :
  forall (fuel : nat) (i : Z) (d : Duration) (st : Secret) (s : Store) (tr : list Event),
    secrets s !! key = Some sec ->
    (forall m, faults s (writes s + m) = if (m <? k)%nat then Some StoreConflict else None) ->
    during s = [] -> cancelled s = None ->
    0 <= i -> i + 2 * Z.of_nat k < BSteps backoff -> BSteps backoff < maxInt ->
    (k < fuel)%nat ->
    let r := tryUpdateFrom fuel backoff i d key callUpdate transform st (mkWorld s tr) in
    fst r = (bump o2, None)
    /\ secrets (env (snd r)) = <[key := bump o2]> (secrets s)
    /\ calls isGet (trace (snd r)) = (calls isGet tr + (k + 1))%nat
    /\ calls isEvUpdate (trace (snd r)) = (calls isEvUpdate tr + (k + 1))%nat
    /\ calls isSleep (trace (snd r)) = (calls isSleep tr + k)%nat.
Proof.
  induction k as [|k IH]; intros fuel i d st s tr Hsec Hf Hd Hc Hi Hbudget Hmax Hfuel r;
    subst r; (destruct fuel as [|fuel]; [lia|]); unfold tryUpdateFrom.
  - pose proof (Hf 0%nat) as Hf0. rewrite Nat.add_0_r in Hf0. cbn in Hf0.
    pose proof (store_update_ok o2 sec s Hf0) as Hu.
    rewrite transform_keeps_key in Hu. specialize (Hu Hsec transform_keeps_token).
    pose proof (attempt_write key callUpdate transform st (withKey key sec) o2 (bump o2)
                  None (mkWorld s tr)
                  (mkWorld (setSecrets (<[key := bump o2]> (secrets s)) (countWrite s))
                     ((tr ++ [EvGet]) ++ [EvUpdate]))
                  (store_get_found key st sec s Hsec) transform_ok transform_changes)
      as Ha.
    assert (Hcall : callUpdate o2 (emit EvGet (mkWorld s tr))
                    = ((bump o2, None),
                       mkWorld (setSecrets (<[key := bump o2]> (secrets s)) (countWrite s))
                         ((tr ++ [EvGet]) ++ [EvUpdate])))
      by (unfold callUpdate, emit; cbn [env trace]; now rewrite Hu).
    specialize (Ha Hcall). cbv beta iota in Ha.
    rewrite (backoffLoop_round fuel backoff i d _ _ _ _ _ _ _ ltac:(lia) Ha).
    cbn [isErr orb fst snd env trace]. rewrite !calls_app, !calls_one. simpl.
    repeat split; lia.
  - pose proof (Hf 0%nat) as Hf0. rewrite Nat.add_0_r in Hf0. cbn in Hf0.
    pose proof (store_update_fault o2 StoreConflict s Hf0) as Hu.
    pose proof (attempt_write key callUpdate transform st (withKey key sec) o2 o2
                  (Some Conflict) (mkWorld s tr)
                  (mkWorld (countWrite s) ((tr ++ [EvGet]) ++ [EvUpdate]))
                  (store_get_found key st sec s Hsec) transform_ok transform_changes)
      as Ha.
    assert (Hcall : callUpdate o2 (emit EvGet (mkWorld s tr))
                    = ((o2, Some Conflict),
                       mkWorld (countWrite s) ((tr ++ [EvGet]) ++ [EvUpdate])))
      by (unfold callUpdate, emit; cbn [env trace]; now rewrite Hu).
    specialize (Ha Hcall). cbv beta iota in Ha. cbn [IsConflict] in Ha.
    rewrite (backoffLoop_round fuel backoff i d _ _ _ _ _ _ _ ltac:(lia) Ha).
    cbn [isErr orb env]. change (ctxErr (countWrite s)) with (cancelled s). rewrite Hc.
    rewrite incr_incr by lia. rewrite sleepAdjusted_eq. cbn [snd env trace].
    rewrite (store_quiet_sleep backoff d (countWrite s) Hd).
    specialize (IH fuel (i + 2) (mulDuration d (BFactor backoff)) o2 (countWrite s)
                  (((tr ++ [EvGet]) ++ [EvUpdate])
                   ++ [EvSleep (fst (adjustedDuration backoff d (countWrite s)))])%list
                  Hsec).
    cbv zeta in IH. unfold tryUpdateFrom in IH.
    destruct IH as (Hr & Hs' & Hg & Hup & Hsl); try assumption; try lia.
    { intros m. cbn [writes countWrite]. specialize (Hf (Datatypes.S m)).
      rewrite Nat.add_succ_r in Hf. exact Hf. }
    rewrite Hr, Hs', Hg, Hup, Hsl. rewrite !calls_app, !calls_one. simpl.
    repeat split; lia.
Qed.

(** X5. Retry, then success.  In a store that holds the object and that
    nobody else touches but for [k] conflicts injected into the next writes,
    with a transform that changes the body and keeps the identity and the
    token, and a budget of more than [2 * k] steps: [TryUpdate] succeeds, the
    store holds the transformed object with a new token, and it took
    [k + 1] fetches, [k + 1] updates and [k] sleeps. *)
Theorem TryUpdate_succeeds_after_conflicts (k : nat) (obj : Secret) (s : Store)
    (tr : list Event) :
  ObjectKeyFromObject obj = key ->
  secrets s !! key = Some sec ->
  (forall m, faults s (writes s + m) = if (m <? k)%nat then Some StoreConflict else None) ->
  during s = [] -> cancelled s = None ->
  2 * Z.of_nat k < BSteps backoff < maxInt ->
  let r := TryUpdate backoff obj transform (mkWorld s tr) in
  fst r = (bump o2, None)
  /\ secrets (env (snd r)) = <[key := bump o2]> (secrets s)
  /\ calls isGet (trace (snd r)) = (calls isGet tr + (k + 1))%nat
  /\ calls isEvUpdate (trace (snd r)) = (calls isEvUpdate tr + (k + 1))%nat
  /\ calls isSleep (trace (snd r)) = (calls isSleep tr + k)%nat.
Proof.
  intros Hk Hsec Hf Hd Hc Hsteps.
  unfold TryUpdate. rewrite tryUpdate_from_start, Hk.
  apply tryUpdate_after_conflicts; try assumption; lia.
Qed.
End RetryThenSucceed.

Lemma TryUpdate_succeeds_after_conflicts_witness :
  let s := testStore [] [] (failsFirst 2 StoreConflict) [] in
  let r := TryUpdate (testBackoff 5) (testSecret []) (setData "x") (start s) in
  fst r = (bump (fst (setData "x" (testSecret []))), None)
  /\ secrets (env (snd r))
     = <[secretKey := bump (fst (setData "x" (testSecret [])))]> (secrets s)
  /\ calls isGet (trace (snd r)) = 3%nat
  /\ calls isEvUpdate (trace (snd r)) = 3%nat
  /\ calls isSleep (trace (snd r)) = 2%nat.
Proof.
  intros s.
  apply (TryUpdate_succeeds_after_conflicts (testBackoff 5) (setData "x") secretKey
           (testSecret []) (fst (setData "x" (testSecret [])))
           eq_refl eq_refl eq_refl eq_refl 2 (testSecret []) s []).
  - reflexivity.
  - reflexivity.
  - intros m. reflexivity.
  - reflexivity.
  - reflexivity.
  - unfold maxInt. simpl. lia.
Defined.

(** ** The finalizer functions on the object store *)

Lemma store_patch_ok (key : ObjectKey) (sec : Secret) (fins : list string) (s : Store)
    (tr : list Event) :
  secrets s !! key = Some sec ->
  faults s (writes s) = None ->
  callPatch (SetFinalizers fins (withKey key sec)) (withKey key sec) (mkWorld s tr)
  = ((patchedSecret key sec fins, None),
     mkWorld (setSecrets (<[key := patchedSecret key sec fins]> (secrets s)) (countWrite s))
       (tr ++ [EvPatch])).
Proof.
  intros Hs Hf.
  assert (Hk : ObjectKeyFromObject (SetFinalizers fins (withKey key sec)) = key)
    by now destruct key.
  unfold callPatch, emit. cbn [env trace fst snd].
  unfold Patch, StoreClient, storePatch, storeWrite. cbv zeta. rewrite Hk, Hf, Hs.
  assert (Hrv : N.eqb (ResourceVersion sec) (ResourceVersion (withKey key sec)) = true)
    by apply N.eqb_refl.
  rewrite Hrv. cbn [fst snd].
  assert (Hnew : withKey key
                   (bump (mkSecret (SNamespace sec) (SName sec) (ResourceVersion sec)
                            (if bool_decide (Finalizers (SetFinalizers fins (withKey key sec))
                                             = Finalizers (withKey key sec))
                             then Finalizers sec
                             else Finalizers (SetFinalizers fins (withKey key sec)))
                            (if String.eqb (Data (SetFinalizers fins (withKey key sec)))
                                  (Data (withKey key sec))
                             then Data sec
                             else Data (SetFinalizers fins (withKey key sec)))))
                 = patchedSecret key sec fins).
  { unfold patchedSecret, withKey, bump. cbn [ResourceVersion Finalizers Data
      SetFinalizers SecretObject]. rewrite String.eqb_refl.
    now rewrite (patched_finalizers fins (Finalizers sec)). }
  now rewrite Hnew.
Qed.

Lemma filter_appended (f : string) (l : list string) :
  ~ In f l -> List.filter (fun e => negb (String.eqb e f)) (l ++ [f]) = l.
Proof.
  intros Hn. rewrite List.filter_app. simpl. rewrite String.eqb_refl. simpl.
  rewrite app_nil_r. induction l as [|x l IH]; [reflexivity|]. simpl.
  destruct (String.eqb_spec x f) as [->|Hne].
  - exfalso. apply Hn. now left.
  - simpl. f_equal. apply IH. intros Hin. apply Hn. now right.
Qed.

Lemma EnsureFinalizer_store_ok (f : string) (obj sec : Secret) (s : Store)
    (tr : list Event) :
  let key := ObjectKeyFromObject obj in
  secrets s !! key = Some sec ->
  ContainsFinalizer (withKey key sec) f = false ->
  faults s (writes s) = None ->
  EnsureFinalizer f obj (mkWorld s tr)
  = ((patchedSecret key sec (Finalizers sec ++ [f]), None),
     mkWorld (setSecrets (<[key := patchedSecret key sec (Finalizers sec ++ [f])]>
                            (secrets s)) (countWrite s))
       ((tr ++ [EvGet]) ++ [EvPatch])).
Proof.
  intros key Hsec Hc Hf0. unfold EnsureFinalizer. apply RetryOnConflict_first_success.
  unfold ensureFinalizerAttempt, bind, callGet. cbn [env].
  fold key. rewrite (store_get_found key obj sec s Hsec). cbv beta iota. rewrite Hc.
  assert (Ha : AddFinalizer (withKey key sec) f
               = SetFinalizers (Finalizers sec ++ [f]) (withKey key sec)).
  { unfold AddFinalizer. unfold ContainsFinalizer in Hc. now rewrite Hc. }
  rewrite Ha. unfold emit. cbn [env trace].
  apply (store_patch_ok key sec (Finalizers sec ++ [f]) s (tr ++ [EvGet]) Hsec Hf0).
Qed.

Lemma DeleteFinalizer_store_ok (f : string) (obj sec : Secret) (s : Store)
    (tr : list Event) :
  let key := ObjectKeyFromObject obj in
  secrets s !! key = Some sec ->
  ContainsFinalizer (withKey key sec) f = true ->
  faults s (writes s) = None ->
  DeleteFinalizer f obj (mkWorld s tr)
  = ((patchedSecret key sec
        (List.filter (fun e => negb (String.eqb e f)) (Finalizers sec)), None),
     mkWorld (setSecrets
                (<[key := patchedSecret key sec
                            (List.filter (fun e => negb (String.eqb e f)) (Finalizers sec))]>
                   (secrets s)) (countWrite s))
       ((tr ++ [EvGet]) ++ [EvPatch])).
Proof.
  intros key Hsec Hc Hf0. unfold DeleteFinalizer. apply RetryOnConflict_first_success.
  unfold deleteFinalizerAttempt, bind, callGet. cbn [env].
  fold key. rewrite (store_get_found key obj sec s Hsec). cbv beta iota.
  cbn [IgnoreNotFound]. rewrite Hc. cbn [negb].
  assert (Ha : RemoveFinalizer (withKey key sec) f
               = SetFinalizers
                   (List.filter (fun e => negb (String.eqb e f)) (Finalizers sec))
                   (withKey key sec)) by reflexivity.
  rewrite Ha. unfold emit. cbn [env trace].
  apply (store_patch_ok key sec _ s (tr ++ [EvGet]) Hsec Hf0).
Qed.

(** X9. Adding a finalizer and removing it again, in a store that holds the
    secret without that finalizer and that injects no fault into the two
    writes: both calls succeed after one fetch and one patch each; in
    between the secret carries its markers followed by the new one; at the
    end it has its markers and its body back, and its token has moved on
    twice. *)
Theorem finalizer_round_trip (f : string) (obj sec : Secret) (s : Store)
    (tr : list Event) :
  let key := ObjectKeyFromObject obj in
  secrets s !! key = Some sec ->
  ~ In f (Finalizers sec) ->
  faults s (writes s) = None ->
  faults s (Datatypes.S (writes s)) = None ->
  let r1 := EnsureFinalizer f obj (mkWorld s tr) in
  let r2 := DeleteFinalizer f (fst (fst r1)) (snd r1) in
  snd (fst r1) = None
  /\ secrets (env (snd r1)) !! key = Some (patchedSecret key sec (Finalizers sec ++ [f]))
  /\ snd (fst r2) = None
  /\ secrets (env (snd r2))
     = <[key := mkSecret (fst key) (snd key)
                  (N.succ (N.succ (ResourceVersion sec))) (Finalizers sec) (Data sec)]>
         (secrets s)
  /\ trace (snd r2) = (tr ++ [EvGet; EvPatch; EvGet; EvPatch])%list.
Proof.
  intros key Hsec Hnot Hf0 Hf1 r1 r2.
  set (mid := patchedSecret key sec (Finalizers sec ++ [f])).
  set (s1 := setSecrets (<[key := mid]> (secrets s)) (countWrite s)).
  assert (Hc : ContainsFinalizer (withKey key sec) f = false).
  { unfold ContainsFinalizer. apply not_true_is_false. rewrite existsb_eqb_In.
    exact Hnot. }
  assert (H1 : r1 = ((mid, None), mkWorld s1 ((tr ++ [EvGet]) ++ [EvPatch])))
    by (subst r1; now apply EnsureFinalizer_store_ok).
  assert (Hmid : secrets s1 !! key = Some mid)
    by (subst s1; cbn [secrets setSecrets]; apply lookup_insert_eq).
  assert (Hkmid : ObjectKeyFromObject mid = key) by now destruct key.
  assert (Hwmid : withKey key mid = mid) by (rewrite <- Hkmid at 1; apply withKey_own).
  assert (Hcm : ContainsFinalizer mid f = true).
  { unfold ContainsFinalizer. apply existsb_eqb_In. simpl. apply in_or_app.
    right. now left. }
  assert (H2 : r2 = ((patchedSecret key mid (Finalizers sec), None),
                     mkWorld (setSecrets (<[key := patchedSecret key mid (Finalizers sec)]>
                                            (secrets s1)) (countWrite s1))
                       ((((tr ++ [EvGet]) ++ [EvPatch]) ++ [EvGet]) ++ [EvPatch]))).
  { subst r2. rewrite H1. cbn [fst snd].
    pose proof (DeleteFinalizer_store_ok f mid mid s1 ((tr ++ [EvGet]) ++ [EvPatch]))
      as Hdel.
    cbv zeta in Hdel. rewrite Hkmid, Hwmid in Hdel.
    rewrite (Hdel Hmid Hcm Hf1).
    change (Finalizers mid) with (Finalizers sec ++ [f])%list.
    now rewrite (filter_appended f (Finalizers sec) Hnot). }
  rewrite H1, H2. cbn [fst snd env trace]. repeat split.
  - exact Hmid.
  - subst s1. cbn [secrets setSecrets]. now rewrite insert_insert_eq.
  - now rewrite <- !app_assoc.
Qed.

Lemma finalizer_round_trip_witness :
  let s := testStore ["other"] [] noFaults [] in
  let r1 := EnsureFinalizer "seed-finalizer" (testSecret []) (start s) in
  let r2 := DeleteFinalizer "seed-finalizer" (fst (fst r1)) (snd r1) in
  snd (fst r1) = None
  /\ secrets (env (snd r1)) !! secretKey
     = Some (patchedSecret secretKey (testSecret ["other"]) ["other"; "seed-finalizer"])
  /\ snd (fst r2) = None
  /\ secrets (env (snd r2)) = <[secretKey := mkSecret "mr-ns" "mr-secret" 3 ["other"] "data"]>
                               (secrets s)
  /\ trace (snd r2) = [EvGet; EvPatch; EvGet; EvPatch].
Proof.
  intros s.
  assert (Hsec : secrets s !! ObjectKeyFromObject (testSecret [])
                 = Some (testSecret ["other"])) by reflexivity.
  apply (finalizer_round_trip "seed-finalizer" (testSecret []) (testSecret ["other"]) s []
           Hsec).
  - simpl. intros [H|[]]. discriminate.
  - reflexivity.
  - reflexivity.
Defined.

(** ** TypedCreateOrUpdate: calls and inputs *)

Section TypedCreateOrUpdateCalls.
Context {S GVK Typed U : Type} `{Object U} `{Client S Typed} `{Client S U}.
Variable GroupVersionKind : U -> GVK.
Variable quotedString : GVK -> string.
Variable SemanticDeepEqual : U -> U -> bool.

(** X10. The result tells the calls, whatever the scheme, the client and
    [mutate] do.  With "none" nothing was written: the function made no call
    or only the fetch, also on every error that comes before the write.
    With "created" it made the fetch and one [Create], with "updated" the
    fetch and one [Update], and these results are reported even when that
    write failed. *)
Theorem TypedCreateOrUpdate_result_tells_calls (scheme : Scheme GVK Typed U) (obj : U)
    (alwaysUpdate : bool) (mutate : U -> U * option error) (w : World S) :
  let r := TypedCreateOrUpdate GroupVersionKind quotedString SemanticDeepEqual
             scheme obj alwaysUpdate mutate w in
  exists ext,
    trace (snd r) = (trace w ++ ext)%list
    /\ match fst (snd (fst r)) with
       | OperationResultNone => ext = [] \/ ext = [EvGet]
       | OperationResultCreated => ext = [EvGet; EvCreate]
       | OperationResultUpdated => ext = [EvGet; EvUpdate]
       end.
Proof.
  intros r. subst r. unfold TypedCreateOrUpdate.
  assert (Hrest : forall current,
    exists ext,
      trace (snd (bind (getCurrent (ObjectKeyFromObject obj) current obj)
                    (fun '((current, obj), err) =>
                       match err with
                       | Some e =>
                         if negb (IsNotFound e)
                         then ret (obj, (OperationResultNone, Some e))
                         else
                           let (obj, err) := mutate obj in
                           match err with
                           | Some e => ret (obj, (OperationResultNone, Some e))
                           | None =>
                             let* (obj, err) := callCreate obj in
                             ret (obj, (OperationResultCreated, err))
                           end
                       | None =>
                         match toUnstructured scheme current obj with
                         | inl e => ret (obj, (OperationResultNone, Some e))
                         | inr existing =>
                           updateExisting SemanticDeepEqual alwaysUpdate mutate
                             existing existing
                         end
                       end) w))
      = (trace w ++ ext)%list
      /\ match fst (snd (fst (bind (getCurrent (ObjectKeyFromObject obj) current obj)
                    (fun '((current, obj), err) =>
                       match err with
                       | Some e =>
                         if negb (IsNotFound e)
                         then ret (obj, (OperationResultNone, Some e))
                         else
                           let (obj, err) := mutate obj in
                           match err with
                           | Some e => ret (obj, (OperationResultNone, Some e))
                           | None =>
                             let* (obj, err) := callCreate obj in
                             ret (obj, (OperationResultCreated, err))
                           end
                       | None =>
                         match toUnstructured scheme current obj with
                         | inl e => ret (obj, (OperationResultNone, Some e))
                         | inr existing =>
                           updateExisting SemanticDeepEqual alwaysUpdate mutate
                             existing existing
                         end
                       end) w))) with
         | OperationResultNone => ext = [] \/ ext = [EvGet]
         | OperationResultCreated => ext = [EvGet; EvCreate]
         | OperationResultUpdated => ext = [EvGet; EvUpdate]
         end).
  { intros current. unfold bind at 1 3.
    pose proof (getCurrent_world (ObjectKeyFromObject obj) current obj w) as Hw.
    destruct (getCurrent (ObjectKeyFromObject obj) current obj w)
      as [[[cur1 obj1] err] w1].
    cbn [snd] in Hw. subst w1.
    destruct err as [e|].
    - destruct (negb (IsNotFound e)).
      + exists [EvGet]. simpl. auto.
      + destruct (mutate obj1) as [obj2 [e2|]].
        * exists [EvGet]. simpl. auto.
        * exists [EvGet; EvCreate]. unfold bind, callCreate, ret, emit.
          cbn [fst snd trace env]. destruct (Create obj2 (env w)) as [[o3 e3] s3].
          cbn [fst snd trace]. split; [now rewrite <- app_assoc | reflexivity].
    - destruct (toUnstructured scheme cur1 obj1) as [e|existing].
      + exists [EvGet]. simpl. auto.
      + unfold updateExisting. destruct (mutate existing) as [obj2 [e2|]].
        * exists [EvGet]. simpl. auto.
        * destruct (negb alwaysUpdate && SemanticDeepEqual existing obj2).
          -- exists [EvGet]. simpl. auto.
          -- exists [EvGet; EvUpdate]. unfold bind, callUpdate, ret, emit.
             cbn [fst snd trace env]. destruct (Update obj2 (env w)) as [[o3 e3] s3].
             cbn [fst snd trace]. split; [now rewrite <- app_assoc | reflexivity]. }
  destruct (New scheme (GroupVersionKind obj)) as [e|[|t|u]].
  - apply Hrest.
  - exists []. simpl. rewrite app_nil_r. auto.
  - apply Hrest.
  - apply Hrest.
Qed.

(** X11. When the scheme knows the kind and the object is found, what the
    caller has put into [obj] does not count: the fetched object, converted,
    is copied over it before [mutate] runs.  Two calls that differ only in
    the content of [obj] (same key, same kind) give the same result. *)
Theorem TypedCreateOrUpdate_found_overwrites_obj (scheme : Scheme GVK Typed U)
    (obj obj' : U) (alwaysUpdate : bool) (mutate : U -> U * option error)
    (w : World S) (t t' : Typed) (u : U) :
  ObjectKeyFromObject obj = ObjectKeyFromObject obj' ->
  GroupVersionKind obj = GroupVersionKind obj' ->
  New scheme (GroupVersionKind obj) = inr (TypedObject t) ->
  Get (ObjectKeyFromObject obj) t (env w) = (t', None) ->
  Convert scheme t' = inr u ->
  TypedCreateOrUpdate GroupVersionKind quotedString SemanticDeepEqual
    scheme obj alwaysUpdate mutate w
  = TypedCreateOrUpdate GroupVersionKind quotedString SemanticDeepEqual
      scheme obj' alwaysUpdate mutate w.
Proof.
  intros Hk Hgvk Hnew Hget Hconv.
  assert (Hrun : forall o, ObjectKeyFromObject o = ObjectKeyFromObject obj ->
                           GroupVersionKind o = GroupVersionKind obj ->
            TypedCreateOrUpdate GroupVersionKind quotedString SemanticDeepEqual
              scheme o alwaysUpdate mutate w
            = updateExisting SemanticDeepEqual alwaysUpdate mutate u u (emit EvGet w)).
  { intros o Hko Hgo. unfold TypedCreateOrUpdate. rewrite Hgo, Hnew.
    cbn [chooseCurrent]. unfold bind at 1, getCurrent, bind at 1, callGet.
    rewrite Hko, Hget. cbv beta iota. cbn [ret toUnstructured]. now rewrite Hconv. }
  rewrite (Hrun obj eq_refl eq_refl). symmetry. apply Hrun; now symmetry.
Qed.
End TypedCreateOrUpdateCalls.

Lemma TypedCreateOrUpdate_found_overwrites_witness :
  let w := start (testStore [] [] noFaults []) in
  TypedCreateOrUpdate secretKind (fun k => k) secretEqb typedScheme
    (testSecret ["mine"]) false (setData "x") w
  = TypedCreateOrUpdate secretKind (fun k => k) secretEqb typedScheme
      (testSecret []) false (setData "x") w.
Proof.
  intros w.
  assert (Hg : Get (ObjectKeyFromObject (testSecret ["mine"])) emptySecret (env w)
               = (testSecret [], None)) by reflexivity.
  assert (Hk : ObjectKeyFromObject (testSecret ["mine"])
               = ObjectKeyFromObject (testSecret [])) by reflexivity.
  assert (Hkind : secretKind (testSecret ["mine"]) = secretKind (testSecret []))
    by reflexivity.
  assert (Hnew : New typedScheme (secretKind (testSecret ["mine"]))
                 = inr (TypedObject emptySecret)) by reflexivity.
  assert (Hconv : Convert typedScheme (testSecret []) = inr (testSecret []))
    by reflexivity.
  apply (TypedCreateOrUpdate_found_overwrites_obj secretKind (fun k => k) secretEqb
           typedScheme (testSecret ["mine"]) (testSecret []) false (setData "x") w
           emptySecret (testSecret []) (testSecret []) Hk Hkind Hnew Hg Hconv).
Defined.

(** ** The reconciler: a second call *)

Lemma Reconcile_on_store (filter : ClassFilter) (key : ObjectKey) (s : Store)
    (tr : list Event) (sec : Secret) :
  secrets s !! key = Some sec ->
  let secret := withKey key sec in
  let w2 := mkWorld s ((tr ++ [EvGet]) ++ [EvList]) in
  let b := isReferenced filter (snd key)
             (List.filter (fun p => String.eqb (MRNamespace p) (fst key)) (parents s)) in
  let has := ContainsFinalizer secret (FinalizerName filter) in
  Reconcile emptySecret filter key (mkWorld s tr)
  = if b && negb has then
      (let* (_, err) := EnsureFinalizer (FinalizerName filter) secret in
       match err with
       | Some e => ret (mkResult false (5 * second), Some e)
       | None => ret (mkResult false 0, None)
       end) w2
    else if negb b && has then
      (let* (_, err) := DeleteFinalizer (FinalizerName filter) secret in
       match err with
       | Some e => ret (mkResult false (5 * second), Some e)
       | None => ret (mkResult false 0, None)
       end) w2
    else ((mkResult false 0, None), w2).
Proof.
  intros Hsec secret w2 b has.
  unfold Reconcile, bind at 1, callGet. cbn [env].
  rewrite (store_get_found key emptySecret sec s Hsec). cbv beta iota.
  unfold bind at 1, callList.
  assert (Hl : ListManagedResources (GetNamespace (withKey key sec))
                 (env (emit EvGet (mkWorld s tr)))
               = (List.filter (fun p => String.eqb (MRNamespace p) (fst key)) (parents s),
                  None)) by reflexivity.
  rewrite Hl. cbv beta iota.
  change (GetName (withKey key sec)) with (snd key).
  fold secret. fold b. fold has.
  change (emit EvList (emit EvGet (mkWorld s tr))) with w2.
  clearbody b has. destruct b, has; reflexivity.
Qed.

(** X13. A second call has nothing left to do.  In a store that holds the
    secret and injects no fault into the next write, [Reconcile] succeeds,
    and a second [Reconcile] right after it succeeds too, leaves the store as
    the first one left it, and only reads: the secret and the list of the
    parents. *)
Theorem Reconcile_twice (filter : ClassFilter) (key : ObjectKey) (s : Store)
    (tr : list Event) (sec : Secret) :
  secrets s !! key = Some sec ->
  faults s (writes s) = None ->
  let r1 := Reconcile emptySecret filter key (mkWorld s tr) in
  let r2 := Reconcile emptySecret filter key (snd r1) in
  fst r1 = (mkResult false 0, None)
  /\ fst r2 = (mkResult false 0, None)
  /\ env (snd r2) = env (snd r1)
  /\ trace (snd r2) = (trace (snd r1) ++ [EvGet; EvList])%list.
Proof.
  intros Hsec Hf r1 r2.
  assert (Hk : ObjectKeyFromObject (withKey key sec) = key) by now destruct key.
  assert (Hww : withKey key (withKey key sec) = withKey key sec) by reflexivity.
  pose proof (Reconcile_on_store filter key s tr sec Hsec) as H1. cbv zeta in H1.
  set (f := FinalizerName filter) in *.
  set (b := isReferenced filter (snd key)
              (List.filter (fun p => String.eqb (MRNamespace p) (fst key)) (parents s)))
    in *.
  destruct b eqn:Eb, (ContainsFinalizer (withKey key sec) f) eqn:Eh;
    cbn [negb andb] in H1.
  - (* converged *)
    subst r2 r1. rewrite H1. cbn [fst snd].
    pose proof (Reconcile_on_store filter key s ((tr ++ [EvGet]) ++ [EvList]) sec Hsec)
      as H2.
    cbv zeta in H2. fold f in H2. fold b in H2. rewrite Eb, Eh in H2.
    cbn [negb andb] in H2. rewrite H2. cbn [fst snd env trace].
    repeat split. now rewrite <- app_assoc.
  - (* the marker is added *)
    pose proof (EnsureFinalizer_store_ok f (withKey key sec) sec s
                  ((tr ++ [EvGet]) ++ [EvList])) as He.
    cbv zeta in He. rewrite Hk in He. specialize (He Hsec Eh Hf).
    unfold bind in H1. rewrite He in H1. unfold ret in H1.
    subst r2 r1. rewrite H1. cbn [fst snd].
    set (mid := patchedSecret key sec (Finalizers sec ++ [f])).
    set (s1 := setSecrets (<[key := mid]> (secrets s)) (countWrite s)).
    assert (Hmid : secrets s1 !! key = Some mid)
      by (subst s1; cbn [secrets setSecrets]; apply lookup_insert_eq).
    pose proof (Reconcile_on_store filter key s1
                  ((((tr ++ [EvGet]) ++ [EvList]) ++ [EvGet]) ++ [EvPatch]) mid Hmid)
      as H2.
    cbv zeta in H2.
    fold f in H2. change (parents s1) with (parents s) in H2. fold b in H2.
    assert (Hhas : ContainsFinalizer (withKey key mid) f = true).
    { unfold ContainsFinalizer. apply existsb_eqb_In. simpl. apply in_or_app.
      right. now left. }
    rewrite Eb, Hhas in H2. cbn [negb andb] in H2. rewrite H2.
    cbn [fst snd env trace]. repeat split. now rewrite <- app_assoc.
  - (* the marker is removed *)
    pose proof (DeleteFinalizer_store_ok f (withKey key sec) sec s
                  ((tr ++ [EvGet]) ++ [EvList])) as Hd.
    cbv zeta in Hd. rewrite Hk in Hd. specialize (Hd Hsec Eh Hf).
    unfold bind in H1. rewrite Hd in H1. unfold ret in H1.
    subst r2 r1. rewrite H1. cbn [fst snd].
    set (mid := patchedSecret key sec
                  (List.filter (fun e => negb (String.eqb e f)) (Finalizers sec))).
    set (s1 := setSecrets (<[key := mid]> (secrets s)) (countWrite s)).
    assert (Hmid : secrets s1 !! key = Some mid)
      by (subst s1; cbn [secrets setSecrets]; apply lookup_insert_eq).
    pose proof (Reconcile_on_store filter key s1
                  ((((tr ++ [EvGet]) ++ [EvList]) ++ [EvGet]) ++ [EvPatch]) mid Hmid)
      as H2.
    cbv zeta in H2.
    fold f in H2. change (parents s1) with (parents s) in H2. fold b in H2.
    assert (Hhas : ContainsFinalizer (withKey key mid) f = false).
    { unfold ContainsFinalizer. apply not_true_is_false. rewrite existsb_eqb_In.
      simpl. apply not_In_filtered. }
    rewrite Eb, Hhas in H2. cbn [negb andb] in H2. rewrite H2.
    cbn [fst snd env trace]. repeat split. now rewrite <- app_assoc.
  - (* converged *)
    subst r2 r1. rewrite H1. cbn [fst snd].
    pose proof (Reconcile_on_store filter key s ((tr ++ [EvGet]) ++ [EvList]) sec Hsec)
      as H2.
    cbv zeta in H2. fold f in H2. fold b in H2. rewrite Eb, Eh in H2.
    cbn [negb andb] in H2. rewrite H2. cbn [fst snd env trace].
    repeat split. now rewrite <- app_assoc.
Qed.

Lemma Reconcile_twice_witness :
  let s := testStore [] [testParent "seed" ["mr-secret"]] noFaults [] in
  let r1 := Reconcile emptySecret (NewClassFilter "seed") secretKey (start s) in
  let r2 := Reconcile emptySecret (NewClassFilter "seed") secretKey (snd r1) in
  fst r1 = (mkResult false 0, None)
  /\ fst r2 = (mkResult false 0, None)
  /\ env (snd r2) = env (snd r1)
  /\ trace (snd r2) = (trace (snd r1) ++ [EvGet; EvList])%list.
Proof.
  intros s.
  assert (Hsec : secrets s !! secretKey = Some (testSecret [])) by reflexivity.
  apply (Reconcile_twice (NewClassFilter "seed") secretKey s [] (testSecret []) Hsec).
  reflexivity.
Defined.

(** ** The budget of steps *)

Section Budget.
Context {S F : Type} `{Float64 F} `{Runtime S F} {St : Type}.
Variable backoff : Backoff F.
Variable condition : St -> M S (St * (bool * option error)).

Lemma sleepAdjusted_withSteps (steps : Z) (d : Duration) (w : World S) :
  sleepAdjusted (withSteps backoff steps) d w = sleepAdjusted backoff d w.
Proof. reflexivity. Qed.

(** A larger budget leaves every outcome but the timeout as it is. *)
Lemma backoffLoop_more_steps (steps' : Z) (fuel : nat) :
  forall (fuel' : nat) (i : Z) (d : Duration) (st : St) (w : World S),
    (fuel <= fuel')%nat -> BSteps backoff <= steps' ->
    snd (fst (backoffLoop fuel backoff i d condition st w)) <> Some ErrWaitTimeout ->
    backoffLoop fuel' (withSteps backoff steps') i d condition st w
    = backoffLoop fuel backoff i d condition st w.
Proof.
  induction fuel as [|fuel IH]; intros fuel' i d st w Hfuel Hsteps Hnt.
  - simpl in Hnt. congruence.
  - destruct fuel' as [|fuel']; [lia|].
    destruct (Z_lt_le_dec i (BSteps backoff)) as [Hlt|Hge].
    2: { rewrite backoffLoop_exhausted in Hnt by lia. simpl in Hnt. congruence. }
    destruct (condition st w) as [[st1 [ok err]] w1] eqn:Hc.
    rewrite (backoffLoop_round fuel backoff i d condition st st1 w w1 ok err Hlt Hc)
      in Hnt |- *.
    rewrite (backoffLoop_round fuel' (withSteps backoff steps') i d condition st st1 w w1
               ok err ltac:(simpl; lia) Hc).
    destruct (isErr err || ok); [reflexivity|].
    destruct (ctxErr (env w1)); [reflexivity|].
    rewrite sleepAdjusted_withSteps. apply IH; [lia | exact Hsteps | exact Hnt].
Qed.

(** With the counter even, the last step of an even budget is never
    reached. *)
Lemma backoffLoop_even_steps (fuel : nat) :
  forall (i : Z) (d : Duration) (st : St) (w : World S),
    0 <= i -> Z.even i = true -> Z.even (BSteps backoff) = true ->
    BSteps backoff < maxInt ->
    backoffLoop fuel (withSteps backoff (BSteps backoff - 1)) i d condition st w
    = backoffLoop fuel backoff i d condition st w.
Proof.
  induction fuel as [|fuel IH]; intros i d st w Hi Hev Hsev Hmax; [reflexivity|].
  assert (Hne : i <> BSteps backoff - 1).
  { intros ->. rewrite Z.even_sub, Hsev in Hev. discriminate. }
  destruct (Z_lt_le_dec i (BSteps backoff)) as [Hlt|Hge].
  - destruct (condition st w) as [[st1 [ok err]] w1] eqn:Hc.
    rewrite (backoffLoop_round fuel backoff i d condition st st1 w w1 ok err Hlt Hc).
    rewrite (backoffLoop_round fuel (withSteps backoff (BSteps backoff - 1)) i d condition
               st st1 w w1 ok err ltac:(simpl; lia) Hc).
    destruct (isErr err || ok); [reflexivity|].
    destruct (ctxErr (env w1)); [reflexivity|].
    rewrite sleepAdjusted_withSteps, incr_incr by lia.
    apply IH; [lia | | exact Hsev | exact Hmax].
    rewrite Z.even_add, Hev. reflexivity.
  - rewrite !backoffLoop_exhausted by (simpl; lia). reflexivity.
Qed.
End Budget.

Section BudgetClaims.
Context {S F Obj : Type} `{Float64 F} `{Runtime S F} `{Object Obj} `{Client S Obj}.

(** X14. More steps never change an outcome that is not the timeout:
    whatever the client does, if [tryUpdate] ends with anything but
    [wait.ErrWaitTimeout], it ends the same way, in the same world, with any
    larger budget of steps. *)
Theorem tryUpdate_more_steps (backoff : Backoff F) (steps' : Z) (obj : Obj)
    (updateFunc : Obj -> M S (Obj * option error))
    (transform : Obj -> Obj * option error) (w : World S) :
  BSteps backoff <= steps' ->
  snd (fst (tryUpdate backoff obj updateFunc transform w)) <> Some ErrWaitTimeout ->
  tryUpdate (withSteps backoff steps') obj updateFunc transform w
  = tryUpdate backoff obj updateFunc transform w.
Proof.
  intros Hsteps Hnt. unfold tryUpdate, exponentialBackoff in *.
  apply backoffLoop_more_steps; [simpl; lia | exact Hsteps | exact Hnt].
Qed.

(** X15. The last step of an even budget is never used: whatever the client
    does, [tryUpdate] with a budget of [2 n] steps does what it does with
    [2 n - 1] steps. *)
Theorem tryUpdate_even_budget (backoff : Backoff F) (obj : Obj)
    (updateFunc : Obj -> M S (Obj * option error))
    (transform : Obj -> Obj * option error) (w : World S) :
  0 < BSteps backoff < maxInt ->
  Z.even (BSteps backoff) = true ->
  tryUpdate backoff obj updateFunc transform w
  = tryUpdate (withSteps backoff (BSteps backoff - 1)) obj updateFunc transform w.
Proof.
  intros Hsteps Hev.
  assert (Hne : BSteps backoff <> 1) by (intros E; rewrite E in Hev; discriminate).
  unfold tryUpdate, exponentialBackoff.
  cbn [BSteps BDuration withSteps].
  rewrite (backoffLoop_even_steps backoff _ (Z.to_nat (BSteps backoff - 1)))
    by (try reflexivity; try assumption; lia).
  replace (Z.to_nat (BSteps backoff)) with (Z.to_nat (BSteps backoff - 1) + 1)%nat by lia.
  apply backoffLoop_fuel; lia.
Qed.
End BudgetClaims.

Lemma tryUpdate_more_steps_witness :
  let w := start (testStore [] [] (failsFirst 1 StoreConflict) []) in
  TryUpdate (withSteps (testBackoff 3) 7) (testSecret []) (setData "x") w
  = TryUpdate (testBackoff 3) (testSecret []) (setData "x") w.
Proof.
  intros w.
  apply (tryUpdate_more_steps (testBackoff 3) 7 (testSecret []) callUpdate (setData "x") w).
  - simpl. lia.
  - vm_compute. discriminate.
Defined.

Lemma tryUpdate_even_budget_witness :
  let w := start (testStore [] [] (failsFirst 1 StoreConflict) []) in
  TryUpdate (testBackoff 2) (testSecret []) (setData "x") w
  = TryUpdate (withSteps (testBackoff 2) 1) (testSecret []) (setData "x") w.
Proof.
  intros w.
  apply (tryUpdate_even_budget (testBackoff 2) (testSecret []) callUpdate (setData "x") w).
  - unfold maxInt. simpl. lia.
  - reflexivity.
Defined.

(** * The retry inside the finalizer functions *)

Section RetryFromFacts.
Context {S F : Type} `{Float64 F} `{Runtime S F}.

Lemma RetryOnConflict_from_start {St : Type} (backoff : Backoff F)
    (fn : St -> M S (St * option error)) (st : St) (w : World S) :
  RetryOnConflict backoff fn st w
  = retryOnConflictFrom (Z.to_nat (BSteps backoff)) backoff (BSteps backoff)
      (BDuration backoff) None fn st w.
Proof. reflexivity. Qed.

(** One cycle of the retry, by the outcome of [fn]. *)
Lemma retryOnConflictFrom_round {St : Type} (fuel : nat) (backoff : Backoff F)
    (steps : Z) (d : Duration) (last : option error)
    (fn : St -> M S (St * option error)) (st st' : St) (err : option error)
    (w w1 : World S) :
  0 < steps ->
  fn st w = ((st', err), w1) ->
  retryOnConflictFrom (Datatypes.S fuel) backoff steps d last fn st w =
  match err with
  | None => ((st', None), w1)
  | Some e =>
    if IsConflict e then
      if steps =? 1 then ((st', Some e), w1)
      else retryOnConflictFrom fuel backoff (steps - 1)
             (if neZero (BFactor backoff) then mulDuration d (BFactor backoff) else d)
             (Some e) fn st' (snd (sleepAdjusted backoff d w1))
    else ((st', if isWaitTimeout (Some e) then last else Some e), w1)
  end.
Proof.
  intros Hs Hf.
  pose proof (onErrorCondition_eq IsConflict fn st st' last err w w1 Hf) as Hc.
  unfold retryOnConflictFrom, bind at 1.
  destruct err as [e|]; cbv beta iota in Hc.
  - destruct (IsConflict e).
    + rewrite (waitLoop_round fuel backoff steps d _ _ _ _ _ _ _ Hs Hc).
      cbn [isErr orb]. destruct (steps =? 1); reflexivity.
    + rewrite (waitLoop_round fuel backoff steps d _ _ _ _ _ _ _ Hs Hc).
      reflexivity.
  - rewrite (waitLoop_round fuel backoff steps d _ _ _ _ _ _ _ Hs Hc).
    reflexivity.
Qed.
End RetryFromFacts.

Section FinalizerCycles.
Context {S F Obj : Type} `{Float64 F} `{Runtime S F} `{Object Obj} `{Client S Obj}.

Lemma EnsureFinalizer_from_start (finalizerName : string) (obj : Obj) (w : World S) :
  EnsureFinalizer finalizerName obj w
  = EnsureFinalizerFrom 5 5 10000000 None finalizerName obj w.
Proof. reflexivity. Qed.

Lemma DeleteFinalizer_from_start (finalizerName : string) (obj : Obj) (w : World S) :
  DeleteFinalizer finalizerName obj w
  = DeleteFinalizerFrom 5 5 10000000 None finalizerName obj w.
Proof. reflexivity. Qed.

(** A cycle that fetches the object and patches it. *)
Lemma ensure_attempt_patch (finalizerName : string) (obj o1 o2 : Obj)
    (perr : option error) (s' : S) (w : World S) :
  Get (ObjectKeyFromObject obj) obj (env w) = (o1, None) ->
  ContainsFinalizer o1 finalizerName = false ->
  Patch (AddFinalizer o1 finalizerName) o1 (env w) = ((o2, perr), s') ->
  ensureFinalizerAttempt finalizerName obj w
  = ((o2, perr), mkWorld s' (trace w ++ [EvGet; EvPatch])).
Proof.
  intros Hg Hc Hp.
  unfold ensureFinalizerAttempt, bind, callGet, callPatch, emit.
  cbn [env trace]. rewrite Hg. cbv beta iota. rewrite Hc. cbn [env trace].
  rewrite Hp. cbn [fst snd]. now rewrite <- app_assoc.
Qed.

Lemma delete_attempt_patch (finalizerName : string) (obj o1 o2 : Obj)
    (gerr perr : option error) (s' : S) (w : World S) :
  Get (ObjectKeyFromObject obj) obj (env w) = (o1, gerr) ->
  IgnoreNotFound gerr = None ->
  ContainsFinalizer o1 finalizerName = true ->
  Patch (RemoveFinalizer o1 finalizerName) o1 (env w) = ((o2, perr), s') ->
  deleteFinalizerAttempt finalizerName obj w
  = ((o2, perr), mkWorld s' (trace w ++ [EvGet; EvPatch])).
Proof.
  intros Hg Hi Hc Hp.
  unfold deleteFinalizerAttempt, bind, callGet, callPatch, emit.
  cbn [env trace]. rewrite Hg. cbv beta iota. rewrite Hi.
  rewrite Hc. cbn [env trace negb]. rewrite Hp. cbn [fst snd].
  now rewrite <- app_assoc.
Qed.

(** What the retry makes of a cycle that ended in a conflict, for either
    closure [fn]. *)
Lemma conflict_cycle (fn : Obj -> M S (Obj * option error)) (fuel : nat)
    (steps : Z) (d : Duration) (last : option error) (obj o2 : Obj) (e : error)
    (s' : S) (w : World S) :
  0 < steps ->
  IsConflict e = true ->
  fn obj w = ((o2, Some e), mkWorld s' (trace w ++ [EvGet; EvPatch])) ->
  let w2 := mkWorld s' (trace w ++ [EvGet; EvPatch]) in
  let w3 := mkWorld (afterSleep DefaultRetry d s')
              (trace w ++ [EvGet; EvPatch;
                           EvSleep (fst (adjustedDuration DefaultRetry d s'))]) in
  let d' := if neZero (BFactor (DefaultRetry (F:=F)))
            then mulDuration d (BFactor (DefaultRetry (F:=F))) else d in
  let run := retryOnConflictFrom (Datatypes.S fuel) DefaultRetry steps d last fn obj w in
  (steps = 1 -> run = ((o2, Some e), w2))
  /\ (1 < steps ->
      run = retryOnConflictFrom fuel DefaultRetry (steps - 1) d' (Some e) fn o2 w3
      /\ forall o3 w4, fuel <> O ->
           fn o2 w3 = ((o3, None), w4) -> run = ((o3, None), w4)).
Proof.
  intros Hs He Hf w2 w3 d' run.
  assert (Hrun : run = if steps =? 1 then ((o2, Some e), w2)
                       else retryOnConflictFrom fuel DefaultRetry (steps - 1) d'
                              (Some e) fn o2 w3).
  { subst run.
    rewrite (retryOnConflictFrom_round fuel DefaultRetry steps d last fn obj o2
               (Some e) w w2 Hs Hf).
    rewrite He. destruct (steps =? 1); [reflexivity|].
    rewrite sleepAdjusted_eq. subst w2 w3. cbn [env trace snd].
    now rewrite <- app_assoc. }
  split.
  - intros ->. exact Hrun.
  - intros Hgt. assert (Hne : (steps =? 1) = false) by (apply Z.eqb_neq; lia).
    rewrite Hne in Hrun. split; [exact Hrun|].
    intros o3 w4 Hfuel Hnext. rewrite Hrun.
    destruct fuel as [|fuel']; [congruence|].
    now rewrite (retryOnConflictFrom_round fuel' DefaultRetry (steps - 1) d' (Some e)
                   fn o2 o3 None w3 w4 ltac:(lia) Hnext).
Qed.

End FinalizerCycles.


(** * The reconciler and the retry of the mutation *)

Section ReconcilerRetry.
Context {S F Obj : Type} `{Float64 F} `{Runtime S F} `{Object Obj} `{Client S Obj}
        `{Lister S}.

(** [Reconcile] past its two reads, when the marker has to change. *)
Lemma Reconcile_mutates (emptyObj : Obj) (filter : ClassFilter) (req : ObjectKey)
    (w : World S) (secret : Obj) (parents : list ManagedResource) :
  Get req emptyObj (env w) = (secret, None) ->
  ListManagedResources (GetNamespace secret) (env w) = (parents, None) ->
  let w2 := emit EvList (emit EvGet w) in
  let outcome (r : (Obj * option error) * World S) :=
    (match snd (fst r) with
     | Some e => (mkResult false (5 * second), Some e)
     | None => (mkResult false 0, None)
     end, snd r) in
  (isReferenced filter (GetName secret) parents = true ->
   ContainsFinalizer secret (FinalizerName filter) = false ->
   Reconcile emptyObj filter req w
   = outcome (EnsureFinalizer (FinalizerName filter) secret w2))
  /\ (isReferenced filter (GetName secret) parents = false ->
      ContainsFinalizer secret (FinalizerName filter) = true ->
      Reconcile emptyObj filter req w
      = outcome (DeleteFinalizer (FinalizerName filter) secret w2)).
Proof.
  intros Hg Hl w2 outcome.
  assert (Hl' : ListManagedResources (GetNamespace secret) (env (emit EvGet w))
                = (parents, None)) by exact Hl.
  split; intros Hr Hh; subst outcome w2;
    unfold Reconcile, bind at 1, callGet; rewrite Hg; cbv beta iota;
    unfold bind at 1, callList; rewrite Hl'; cbv beta iota;
    rewrite Hr, Hh; cbn [negb andb]; unfold bind at 1.
  - destruct (EnsureFinalizer (FinalizerName filter) secret
                (emit EvList (emit EvGet w))) as [[o [e|]] w3]; reflexivity.
  - destruct (DeleteFinalizer (FinalizerName filter) secret
                (emit EvList (emit EvGet w))) as [[o [e|]] w3]; reflexivity.
Qed.

(** C8, as amended.  [Reconcile] has no retry loop of its own: when its one
    call of [EnsureFinalizer] or [DeleteFinalizer] returns an error, it
    returns that error and a result that asks for a requeue after five
    seconds, the world as that call left it.  The call itself retries: a
    patch error that is no conflict (nor the library's own timeout error)
    ends the call and the reconciliation at once, after the fetch and the
    patch; after a conflict of the patch the call sleeps and goes on with
    the four cycles left, and the reconciliation ends as they end, with the
    requeue delay only when they fail too. *)
Theorem Reconcile_mutation_error_requeues (emptyObj : Obj) (filter : ClassFilter)
    (req : ObjectKey) (w : World S) (secret : Obj) (parents : list ManagedResource) :
  Get req emptyObj (env w) = (secret, None) ->
  ListManagedResources (GetNamespace secret) (env w) = (parents, None) ->
  let finalizerName := FinalizerName filter in
  let w2 := emit EvList (emit EvGet w) in
  let referenced := isReferenced filter (GetName secret) parents in
  let has := ContainsFinalizer secret finalizerName in
  let requeue := mkResult false (5 * second) in
  let outcome (r : (Obj * option error) * World S) :=
    (match snd (fst r) with
     | Some e => (requeue, Some e)
     | None => (mkResult false 0, None)
     end, snd r) in
  let run := Reconcile emptyObj filter req w in
  (referenced = true -> has = false ->
   forall o e w3,
     EnsureFinalizer finalizerName secret w2 = ((o, Some e), w3) ->
     run = ((requeue, Some e), w3))
  /\ (referenced = false -> has = true ->
      forall o e w3,
        DeleteFinalizer finalizerName secret w2 = ((o, Some e), w3) ->
        run = ((requeue, Some e), w3))
  /\ (forall o1 o2 e s',
        Get (ObjectKeyFromObject secret) secret (env w) = (o1, None) ->
        IsConflict e = false -> isWaitTimeout (Some e) = false ->
        let failed := ((requeue, Some e),
                       mkWorld s' (trace w ++ [EvGet; EvList; EvGet; EvPatch])) in
        (referenced = true -> has = false ->
         ContainsFinalizer o1 finalizerName = false ->
         Patch (AddFinalizer o1 finalizerName) o1 (env w) = ((o2, Some e), s') ->
         run = failed)
        /\ (referenced = false -> has = true ->
            ContainsFinalizer o1 finalizerName = true ->
            Patch (RemoveFinalizer o1 finalizerName) o1 (env w) = ((o2, Some e), s') ->
            run = failed))
  /\ (forall o1 o2 e s',
        Get (ObjectKeyFromObject secret) secret (env w) = (o1, None) ->
        IsConflict e = true ->
        let d := 10000000 in
        let w3 := mkWorld (afterSleep DefaultRetry d s')
                    (trace w ++ [EvGet; EvList; EvGet; EvPatch;
                                 EvSleep (fst (adjustedDuration DefaultRetry d s'))]) in
        let d' := if neZero (BFactor (DefaultRetry (F:=F)))
                  then mulDuration d (BFactor (DefaultRetry (F:=F))) else d in
        (referenced = true -> has = false ->
         ContainsFinalizer o1 finalizerName = false ->
         Patch (AddFinalizer o1 finalizerName) o1 (env w) = ((o2, Some e), s') ->
         run = outcome (EnsureFinalizerFrom 4 4 d' (Some e) finalizerName o2 w3))
        /\ (referenced = false -> has = true ->
            ContainsFinalizer o1 finalizerName = true ->
            Patch (RemoveFinalizer o1 finalizerName) o1 (env w) = ((o2, Some e), s') ->
            run = outcome (DeleteFinalizerFrom 4 4 d' (Some e) finalizerName o2 w3))).
Proof.
  intros Hg Hl finalizerName w2 referenced has requeue outcome run.
  destruct (Reconcile_mutates emptyObj filter req w secret parents Hg Hl)
    as (Hadd & Hdel).
  fold w2 finalizerName in Hadd, Hdel.
  assert (Htr : trace w2 = (trace w ++ [EvGet; EvList])%list)
    by (subst w2; unfold emit; cbn [trace]; now rewrite <- app_assoc).
  assert (Henv : env w2 = env w) by reflexivity.
  assert (Hfive : 0 < 5) by reflexivity.
  assert (Hgt : 1 < 5) by reflexivity.
  split; [|split; [|split]].
  - intros Hr Hh o e w3 Hm. subst run. rewrite (Hadd Hr Hh), Hm. reflexivity.
  - intros Hr Hh o e w3 Hm. subst run. rewrite (Hdel Hr Hh), Hm. reflexivity.
  - intros o1 o2 e s' Hg2 He Hw failed. split; intros Hr Hh Hc Hp; subst run failed.
    + rewrite (Hadd Hr Hh), EnsureFinalizer_from_start. unfold EnsureFinalizerFrom.
      rewrite (retryOnConflictFrom_round 4 DefaultRetry 5 _ None _ secret o2 (Some e) w2
                 (mkWorld s' (trace w2 ++ [EvGet; EvPatch])) Hfive
                 (ensure_attempt_patch finalizerName secret o1 o2 (Some e) s' w2 Hg2 Hc Hp)).
      rewrite He, Hw. cbn [fst snd]. rewrite Htr. now rewrite <- app_assoc.
    + rewrite (Hdel Hr Hh), DeleteFinalizer_from_start. unfold DeleteFinalizerFrom.
      rewrite (retryOnConflictFrom_round 4 DefaultRetry 5 _ None _ secret o2 (Some e) w2
                 (mkWorld s' (trace w2 ++ [EvGet; EvPatch])) Hfive
                 (delete_attempt_patch finalizerName secret o1 o2 None (Some e) s' w2
                    Hg2 eq_refl Hc Hp)).
      rewrite He, Hw. cbn [fst snd]. rewrite Htr. now rewrite <- app_assoc.
  - intros o1 o2 e s' Hg2 He d w3 d'.
    assert (Hw3 : mkWorld (afterSleep DefaultRetry d s')
                    (trace w2 ++ [EvGet; EvPatch;
                                  EvSleep (fst (adjustedDuration DefaultRetry d s'))])
                  = w3)
      by (subst w3; rewrite Htr; now rewrite <- app_assoc).
    split; intros Hr Hh Hc Hp; subst run.
    + rewrite (Hadd Hr Hh), EnsureFinalizer_from_start. unfold EnsureFinalizerFrom.
      rewrite (proj1 (proj2 (conflict_cycle (ensureFinalizerAttempt finalizerName) 4 5 d
                               None secret o2 e s' w2 Hfive He
                               (ensure_attempt_patch finalizerName secret o1 o2 (Some e)
                                  s' w2 Hg2 Hc Hp)) Hgt)).
      now rewrite Hw3.
    + rewrite (Hdel Hr Hh), DeleteFinalizer_from_start. unfold DeleteFinalizerFrom.
      rewrite (proj1 (proj2 (conflict_cycle (deleteFinalizerAttempt finalizerName) 4 5 d
                               None secret o2 e s' w2 Hfive He
                               (delete_attempt_patch finalizerName secret o1 o2 None
                                  (Some e) s' w2 Hg2 eq_refl Hc Hp)) Hgt)).
      now rewrite Hw3.
Qed.
End ReconcilerRetry.

(** The last case of the reconciler's test, "should fail if secret update
    fails", for the addition and for the removal of the marker; and the
    reconciler on a store whose patches conflict, every time and once. *)
Lemma Reconcile_mutation_error_witness :
  let seed := NewClassFilter "seed" in
  let toAdd flt := testStore [] [testParent "seed" ["mr-secret"]] flt [] in
  let toRemove flt :=
    testStore ["seed-finalizer"] [testParent "other" ["mr-secret"]] flt [] in
  let fake := alwaysFails (StoreOther "fake") in
  let removed := patchedSecret secretKey (testSecret ["seed-finalizer"]) [] in
  Reconcile emptySecret seed secretKey (start (toAdd fake))
  = ((mkResult false 5000000000, Some (Errorf "fake")),
     mkWorld (countWrite (toAdd fake)) [EvGet; EvList; EvGet; EvPatch])
  /\ Reconcile emptySecret seed secretKey (start (toRemove fake))
     = ((mkResult false 5000000000, Some (Errorf "fake")),
        mkWorld (countWrite (toRemove fake)) [EvGet; EvList; EvGet; EvPatch])
  /\ Reconcile emptySecret seed secretKey (start (toAdd (alwaysFails StoreConflict)))
     = ((mkResult false 5000000000, Some Conflict),
        mkWorld (Nat.iter 5 countWrite (toAdd (alwaysFails StoreConflict)))
          [EvGet; EvList; EvGet; EvPatch; EvSleep 10000000; EvGet; EvPatch;
           EvSleep 10000000; EvGet; EvPatch; EvSleep 10000000; EvGet; EvPatch;
           EvSleep 10000000; EvGet; EvPatch])
  /\ Reconcile emptySecret seed secretKey (start (toRemove (failsFirst 1 StoreConflict)))
     = ((mkResult false 0, None),
        mkWorld (setSecrets {[ secretKey := removed ]}
                   (Nat.iter 2 countWrite (toRemove (failsFirst 1 StoreConflict))))
          [EvGet; EvList; EvGet; EvPatch; EvSleep 10000000; EvGet; EvPatch]).
Proof.
  intros seed toAdd toRemove fake removed.
  assert (Hga : forall flt, Get secretKey emptySecret (env (start (toAdd flt)))
                            = (testSecret [], None)) by reflexivity.
  assert (Hgr : forall flt, Get secretKey emptySecret (env (start (toRemove flt)))
                            = (testSecret ["seed-finalizer"], None)) by reflexivity.
  assert (Hla : forall flt,
            ListManagedResources (GetNamespace (testSecret [])) (env (start (toAdd flt)))
            = ([testParent "seed" ["mr-secret"]], None)) by reflexivity.
  assert (Hlr : forall flt,
            ListManagedResources (GetNamespace (testSecret ["seed-finalizer"]))
              (env (start (toRemove flt)))
            = ([testParent "other" ["mr-secret"]], None)) by reflexivity.
  assert (Hra : isReferenced seed (GetName (testSecret []))
                  [testParent "seed" ["mr-secret"]] = true) by reflexivity.
  assert (Hrr : isReferenced seed (GetName (testSecret ["seed-finalizer"]))
                  [testParent "other" ["mr-secret"]] = false) by reflexivity.
  assert (Hha : ContainsFinalizer (testSecret []) (FinalizerName seed) = false)
    by reflexivity.
  assert (Hhr : ContainsFinalizer (testSecret ["seed-finalizer"]) (FinalizerName seed)
                = true) by reflexivity.
  assert (Hg2a : forall flt,
            Get (ObjectKeyFromObject (testSecret [])) (testSecret [])
              (env (start (toAdd flt))) = (testSecret [], None)) by reflexivity.
  assert (Hg2r : forall flt,
            Get (ObjectKeyFromObject (testSecret ["seed-finalizer"]))
              (testSecret ["seed-finalizer"]) (env (start (toRemove flt)))
            = (testSecret ["seed-finalizer"], None)) by reflexivity.
  assert (Hpa : forall e,
            Patch (AddFinalizer (testSecret []) (FinalizerName seed)) (testSecret [])
              (env (start (toAdd (alwaysFails e))))
            = ((testSecret ["seed-finalizer"], Some (storeError e)),
               countWrite (toAdd (alwaysFails e)))) by reflexivity.
  assert (Hpr : forall flt e, flt O = Some e ->
            Patch (RemoveFinalizer (testSecret ["seed-finalizer"]) (FinalizerName seed))
              (testSecret ["seed-finalizer"]) (env (start (toRemove flt)))
            = ((testSecret [], Some (storeError e)), countWrite (toRemove flt))).
  { intros flt e Hf. cbn. unfold storePatch, storeWrite. cbn. now rewrite Hf. }
  split; [|split; [|split]].
  - pose proof (Reconcile_mutation_error_requeues emptySecret seed secretKey
                  (start (toAdd fake)) (testSecret []) _ (Hga _) (Hla _)) as Hrec.
    cbv zeta in Hrec. destruct Hrec as (_ & _ & Hfail & _).
    apply (proj1 (Hfail (testSecret []) (testSecret ["seed-finalizer"]) (Errorf "fake")
                    (countWrite (toAdd fake)) (Hg2a _) eq_refl eq_refl)
             Hra Hha Hha (Hpa (StoreOther "fake"))).
  - pose proof (Reconcile_mutation_error_requeues emptySecret seed secretKey
                  (start (toRemove fake)) (testSecret ["seed-finalizer"]) _
                  (Hgr _) (Hlr _)) as Hrec.
    cbv zeta in Hrec. destruct Hrec as (_ & _ & Hfail & _).
    apply (proj2 (Hfail (testSecret ["seed-finalizer"]) (testSecret []) (Errorf "fake")
                    (countWrite (toRemove fake)) (Hg2r _) eq_refl eq_refl)
             Hrr Hhr Hhr (Hpr fake (StoreOther "fake") eq_refl)).
  - pose proof (Reconcile_mutation_error_requeues emptySecret seed secretKey
                  (start (toAdd (alwaysFails StoreConflict))) (testSecret []) _
                  (Hga _) (Hla _)) as Hrec.
    cbv zeta in Hrec. destruct Hrec as (_ & _ & _ & Hretry).
    etransitivity.
    + apply (proj1 (Hretry (testSecret []) (testSecret ["seed-finalizer"]) Conflict
                      (countWrite (toAdd (alwaysFails StoreConflict))) (Hg2a _) eq_refl)
               Hra Hha Hha (Hpa StoreConflict)).
    + vm_compute. reflexivity.
  - pose proof (Reconcile_mutation_error_requeues emptySecret seed secretKey
                  (start (toRemove (failsFirst 1 StoreConflict)))
                  (testSecret ["seed-finalizer"]) _ (Hgr _) (Hlr _)) as Hrec.
    cbv zeta in Hrec. destruct Hrec as (_ & _ & _ & Hretry).
    etransitivity.
    + apply (proj2 (Hretry (testSecret ["seed-finalizer"]) (testSecret []) Conflict
                      (countWrite (toRemove (failsFirst 1 StoreConflict))) (Hg2r _)
                      eq_refl)
               Hrr Hhr Hhr (Hpr (failsFirst 1 StoreConflict) StoreConflict eq_refl)).
    + vm_compute. reflexivity.
Defined.

(** C8 does not hold as stated.  The patch of the marker fails with a conflict,
    and the reconciler neither returns that error nor asks for a requeue:
    the call of [EnsureFinalizer] or [DeleteFinalizer] it makes sleeps,
    fetches and patches again, and the reconciliation is a success.  When
    every patch conflicts, the error and the requeue delay come after five
    fetches, five patches and four sleeps. *)
Lemma Reconcile_retries_internally_counterexample :
  let seed := NewClassFilter "seed" in
  let toAdd flt := start (testStore [] [testParent "seed" ["mr-secret"]] flt []) in
  let toRemove flt :=
    start (testStore ["seed-finalizer"] [testParent "other" ["mr-secret"]] flt []) in
  let once := failsFirst 1 StoreConflict in
  snd (fst (ensureFinalizerAttempt "seed-finalizer" (testSecret []) (toAdd once)))
  = Some Conflict
  /\ (let r := Reconcile emptySecret seed secretKey (toAdd once) in
      fst r = (mkResult false 0, None)
      /\ trace (snd r)
         = [EvGet; EvList; EvGet; EvPatch; EvSleep 10000000; EvGet; EvPatch])
  /\ snd (fst (deleteFinalizerAttempt "seed-finalizer" (testSecret ["seed-finalizer"])
                 (toRemove once)))
     = Some Conflict
  /\ (let r := Reconcile emptySecret seed secretKey (toRemove once) in
      fst r = (mkResult false 0, None)
      /\ trace (snd r)
         = [EvGet; EvList; EvGet; EvPatch; EvSleep 10000000; EvGet; EvPatch])
  /\ (let r := Reconcile emptySecret seed secretKey (toRemove (alwaysFails StoreConflict)) in
      fst r = (mkResult false (5 * second), Some Conflict)
      /\ calls isGet (trace (snd r)) = 6%nat
      /\ calls isPatch (trace (snd r)) = 5%nat
      /\ calls isSleep (trace (snd r)) = 4%nat).
Proof. vm_compute. repeat split; reflexivity. Qed.
